(** * L'Oreal routine builder: the conversation glue of [script.js]

    A shallow embedding of the parts of [src/script.js] that decide what is
    sent to the chat endpoint: the text sanitizer, the product payload, the
    restore of the persisted selection, the topic validator, and the two
    asynchronous handlers ([generateRoutine] and the chat form's submit
    listener) over the module-level state.

    Conventions.
    - A JavaScript string is the list of its UTF-16 code units, so [length]
      is [String.prototype.length] and the ellipsis U+2026 is one unit.
    - Arrays are lists; an array that is written by index
      ([conversationMessages]) is a list of slots, [None] being a slot that
      holds no element.
    - A JavaScript [Set] of numbers is the list of its members in insertion
      order, without repetition.
    - Built-ins of the host whose tables are not part of the repository
      (case mapping, JSON text, string-to-number conversion) are the fields
      of the class [Host]. *)

From Stdlib Require Import ZArith NArith Lia Bool Ascii String.
From stdpp Require Import base option list.

Open Scope N_scope.

(** ** Strings as UTF-16 code units *)

Abbreviation jsstring := (list N).

(** A literal of the source made of ASCII characters only. *)
Definition lit (s : string) : jsstring :=
  map N_of_ascii (list_ascii_of_string s).

Definition SPACE : N := 32.
Definition QUOTE : N := 34.
(** U+2026, the one-unit marker appended by [sanitizeText]. *)
Definition ELLIPSIS : N := 8230.

(** [!s] on a string: only the empty string is falsy. *)
Definition falsy (s : jsstring) : bool :=
  match s with [] => true | _ :: _ => false end.

(** The code units matched by [\s] and stripped by [trim]: ECMAScript's
    WhiteSpace and LineTerminator. *)
Definition isWhiteSpace (c : N) : bool :=
  ((9 <=? c) && (c <=? 13))
  || (c =? 32) || (c =? 160) || (c =? 5760)
  || ((8192 <=? c) && (c <=? 8202))
  || (c =? 8232) || (c =? 8233) || (c =? 8239) || (c =? 8287)
  || (c =? 12288) || (c =? 65279).

(** [s.replace(/\s+/g, " ")]: every maximal run of white space becomes one
    space. [inRun] says that the previous unit was white space. *)
Fixpoint replaceRuns (inRun : bool) (s : jsstring) : jsstring :=
  match s with
  | [] => []
  | c :: r =>
      if isWhiteSpace c
      then (if inRun then replaceRuns true r else SPACE :: replaceRuns true r)
      else c :: replaceRuns false r
  end.

Definition collapse (s : jsstring) : jsstring := replaceRuns false s.

Fixpoint trimStart (s : jsstring) : jsstring :=
  match s with
  | [] => []
  | c :: r => if isWhiteSpace c then trimStart r else s
  end.

Fixpoint trimEnd (s : jsstring) : jsstring :=
  match s with
  | [] => []
  | c :: r =>
      match trimEnd r with
      | [] => if isWhiteSpace c then [] else [c]
      | r' => c :: r'
      end
  end.

(** [String.prototype.trim]. *)
Definition trim (s : jsstring) : jsstring := trimEnd (trimStart s).

(** Relative index of [slice]: a negative index counts from the end, and
    the result is clamped to [0, len]. *)
Definition relIndex (len i : Z) : Z :=
  if (i <? 0)%Z then Z.max (len + i) 0 else Z.min i len.

(** [x.slice(start, stop)] on a string or an array. *)
Definition slice {A} (l : list A) (start stop : Z) : list A :=
  let len := Z.of_nat (length l) in
  let from := relIndex len start in
  let to := relIndex len stop in
  take (Z.to_nat (to - from)) (drop (Z.to_nat from) l).

(** [x.slice(start)]: the end defaults to the length. *)
Definition sliceFrom {A} (l : list A) (start : Z) : list A :=
  slice l start (Z.of_nat (length l)).

Fixpoint startsWith (k s : jsstring) : bool :=
  match k, s with
  | [], _ => true
  | _ :: _, [] => false
  | a :: k', b :: s' => (a =? b) && startsWith k' s'
  end.

(** [s.includes(k)]: [k] occurs in [s] as a run of consecutive units. *)
Fixpoint includes (s k : jsstring) : bool :=
  startsWith k s
  || match s with
     | [] => false
     | _ :: s' => includes s' k
     end.

(** ** The sanitizer (script.js, [sanitizeText]) *)

(** [maxLen] is the number passed by the caller (300 when omitted). *)
Definition sanitizeText (text : jsstring) (maxLen : Z) : jsstring :=
  if falsy text then []
  else
    let s := trim (collapse text) in
    if (Z.of_nat (length s) >? maxLen)%Z
    then trim (slice s 0 maxLen) ++ [ELLIPSIS]
    else s.

Definition fixture_text : jsstring := lit "a    b    c    extra words here".

(** ** Values of the host *)

(** A JavaScript number, as far as a catalog identifier can tell: either the
    double is the integer [z] ([-0] being [0]), or it is any other double
    (NaN, an infinity, a fraction). Catalog identifiers are integers, so
    [p.id === n] holds exactly when [n] is [Integral (id p)]. *)
Inductive number : Type :=
| Integral (z : Z)
| NonIntegral.

(** What [JSON.parse] can return. *)
#[warnings="-register-all"]
Inductive JSON : Type :=
| JNull
| JBool (b : bool)
| JNumber (n : number)
| JString (s : jsstring)
| JArray (items : list JSON)
| JObject (members : list (jsstring * JSON)).

(** How an evaluation ends: with a value, or by throwing an error whose
    [message] is given. *)
Inductive Completion (A : Type) : Type :=
| Normal (a : A)
| Throw (message : jsstring).
Arguments Normal {A} a.
Arguments Throw {A} message.

(** ** Catalog records and payload entries *)

Module Product.
Record t : Type := mk {
  id : Z;
  name : option jsstring;
  brand : option jsstring;
  category : option jsstring;
  image : option jsstring;
  description : option jsstring
}.
End Product.

(** The object literal built by [getSelectedProductsPayload]. *)
Module Entry.
Record t : Type := mk {
  name : jsstring;
  brand : jsstring;
  category : jsstring;
  description : jsstring
}.
End Entry.

(** [x || ""] for a field that is a string or is missing. *)
Definition orEmpty (x : option jsstring) : jsstring :=
  match x with
  | Some s => s
  | None => []
  end.

(** ASCII letters A to Z are mapped to a to z. *)
Definition lowerAscii (c : N) : N :=
  if (65 <=? c) && (c <=? 90) then c + 32 else c.

(** The built-ins the script calls and whose result is fixed by the host.
    - [toLowerCase]: [String.prototype.toLowerCase]; on a string of ASCII
      units it is [map lowerAscii], which is all that is assumed of it.
    - [JSON_stringify]: [JSON.stringify(selected, null, 2)].
    - [JSON_parse]: [JSON.parse], which throws on malformed text.
    - [StringToNumber]: [Number] applied to a string.
    - [ToPrimitive]: the string an array or an object is converted to
      before [Number] reads it. *)
Class Host : Type := {
  toLowerCase : jsstring -> jsstring;
  toLowerCase_ascii :
    forall s, Forall (fun c => c < 128) s -> toLowerCase s = map lowerAscii s;
  JSON_stringify : list Entry.t -> jsstring;
  JSON_parse : jsstring -> Completion JSON;
  StringToNumber : jsstring -> number;
  ToPrimitive : JSON -> jsstring
}.

(** [Number(v)] for a value that came out of [JSON.parse]. *)
Definition toNumber `{Host} (v : JSON) : number :=
  match v with
  | JNull => Integral 0
  | JBool b => Integral (if b then 1 else 0)
  | JNumber n => n
  | JString s => StringToNumber s
  | JArray _ | JObject _ => StringToNumber (ToPrimitive v)
  end.

(** ** The selection (script.js, [selectedProductIds]) *)

(** [allProducts.find((p) => p.id === id)]. *)
Definition findProduct (allProducts : list Product.t) (id : Z)
  : option Product.t :=
  find (fun p => (Product.id p =? id)%Z) allProducts.

(** [set.add(z)]: a member already present keeps its place. *)
Definition setAdd (z : Z) (s : list Z) : list Z :=
  if existsb (Z.eqb z) s then s else s ++ [z].

(** The callback of [arr.forEach] in [loadSelectedProducts]. *)
Definition restoreId `{Host} (allProducts : list Product.t)
  (selected : list Z) (raw : JSON) : list Z :=
  match toNumber raw with
  | Integral numId =>
      match findProduct allProducts numId with
      | Some _ => setAdd numId selected
      | None => selected
      end
  | NonIntegral => selected
  end.

(** The [try] block of [loadSelectedProducts]. [getItem] is how
    [localStorage.getItem(STORAGE_KEY)] ends: it throws when storage is
    denied, and returns [None] (null) when nothing was saved. *)
Definition loadSelectedProducts_try `{Host}
  (getItem : Completion (option jsstring))
  (allProducts : list Product.t) (selected : list Z)
  : Completion (list Z) :=
  match getItem with
  | Throw m => Throw m
  | Normal None => Normal selected
  | Normal (Some raw) =>
      if falsy raw then Normal selected
      else
        match JSON_parse raw with
        | Throw m => Throw m
        | Normal (JArray arr) =>
            Normal (fold_left (restoreId allProducts) arr selected)
        | Normal _ => Normal selected
        end
  end.

(** [loadSelectedProducts]: the selection afterwards and what was written
    with [console.error]. Nothing is added before a point that can throw,
    so the [catch] branch leaves the selection as it was. *)
Definition loadSelectedProducts `{Host}
  (getItem : Completion (option jsstring))
  (allProducts : list Product.t) (selected : list Z)
  : Completion (list Z * list jsstring) :=
  match loadSelectedProducts_try getItem allProducts selected with
  | Normal selected' => Normal (selected', [])
  | Throw m => Normal (selected, [lit "Could not load selected products:"; m])
  end.

(** ** The payload (script.js, [getSelectedProductsPayload]) *)

(** The callback of [.map]: [None] is the [null] returned for an
    identifier that [find] does not locate. *)
Definition payloadEntry (allProducts : list Product.t) (id : Z)
  : option Entry.t :=
  match findProduct allProducts id with
  | None => None
  | Some p =>
      Some {| Entry.name := orEmpty (Product.name p);
              Entry.brand := orEmpty (Product.brand p);
              Entry.category := orEmpty (Product.category p);
              Entry.description :=
                sanitizeText (orEmpty (Product.description p)) 300 |}
  end.

(** [.filter(Boolean)] on an array of objects and nulls. *)
Fixpoint filterBoolean {A} (l : list (option A)) : list A :=
  match l with
  | [] => []
  | None :: r => filterBoolean r
  | Some a :: r => a :: filterBoolean r
  end.

Definition getSelectedProductsPayload (allProducts : list Product.t)
  (selectedProductIds : list Z) : list Entry.t :=
  filterBoolean (map (payloadEntry allProducts) selectedProductIds).

(** ** The topic validator (script.js, [isAllowedQuestion]) *)

Definition allowedKeywords : list jsstring :=
  map lit
    [ "routine"; "product"; "skincare"; "skin"; "haircare"; "hair";
      "makeup"; "mascara"; "foundation"; "fragrance"; "scent"; "sunscreen";
      "spf"; "cleanser"; "moisturizer"; "serum"; "retinol"; "vitamin c";
      "hydration"; "acne"; "tone"; "texture"; "conditioner"; "shampoo";
      "apply"; "when to use"; "how to use"; "step"; "steps"; "morning";
      "night"; "pm"; "am"; "routine step" ]%string.

(** The body of the loop over [allProducts]: the lower-cased name or brand,
    when it is not empty, occurs in [s]. *)
Definition mentions `{Host} (s : jsstring) (p : Product.t) : bool :=
  let name := toLowerCase (orEmpty (Product.name p)) in
  let brand := toLowerCase (orEmpty (Product.brand p)) in
  (negb (falsy name) && includes s name)
  || (negb (falsy brand) && includes s brand).

Definition isAllowedQuestion `{Host} (allProducts : list Product.t)
  (text : jsstring) : bool :=
  if falsy text || falsy (trim text) then false
  else
    let s := toLowerCase text in
    if existsb (fun k => includes s k) allowedKeywords then true
    else existsb (mentions s) allProducts.

(** ** Conversation state *)

Inductive Role : Type := system | user | assistant.

Record Message : Type := { role : Role; content : jsstring }.

(** The first element of [conversationMessages]. *)
Definition systemMessage : Message :=
  {| role := system;
     content :=
       lit "You are a helpful skincare and product routine assistant. You must only answer questions about the generated routine or directly related topics (skincare, haircare, makeup, fragrance, product usage, SPF/suncare). If a user asks about anything unrelated (politics, finance, medical diagnosis beyond general skincare tips, or other off-topic subjects), reply briefly: "
       ++ [QUOTE]
       ++ lit "I can only help with the routine or product-related questions. Please ask about skincare, haircare, makeup, fragrance, or the routine."
       ++ [QUOTE] |}.

(** What [chatWindow.innerHTML] shows: one [placeholder-message] block with
    the given markup, or the messages rendered by [renderChatWindow]. *)
Inductive ChatWindow : Type :=
| placeholderMessage (html : jsstring)
| chatMessages (visible : list Message).

(** The module-level state and the page elements the handlers touch. *)
Record World : Type := {
  OPENAI_API_KEY : option jsstring;
  allProducts : list Product.t;
  selectedProductIds : list Z;
  conversationMessages : list (option Message);
  hiddenApiMessages : list Message;
  chatWindow : ChatWindow;
  generateRoutineBtn_disabled : bool;
  userInput : jsstring
}.

Definition setChatWindow (c : ChatWindow) (w : World) : World :=
  {| OPENAI_API_KEY := OPENAI_API_KEY w;
     allProducts := allProducts w;
     selectedProductIds := selectedProductIds w;
     conversationMessages := conversationMessages w;
     hiddenApiMessages := hiddenApiMessages w;
     chatWindow := c;
     generateRoutineBtn_disabled := generateRoutineBtn_disabled w;
     userInput := userInput w |}.

Definition setConversation (l : list (option Message)) (w : World) : World :=
  {| OPENAI_API_KEY := OPENAI_API_KEY w;
     allProducts := allProducts w;
     selectedProductIds := selectedProductIds w;
     conversationMessages := l;
     hiddenApiMessages := hiddenApiMessages w;
     chatWindow := chatWindow w;
     generateRoutineBtn_disabled := generateRoutineBtn_disabled w;
     userInput := userInput w |}.

Definition setHidden (l : list Message) (w : World) : World :=
  {| OPENAI_API_KEY := OPENAI_API_KEY w;
     allProducts := allProducts w;
     selectedProductIds := selectedProductIds w;
     conversationMessages := conversationMessages w;
     hiddenApiMessages := l;
     chatWindow := chatWindow w;
     generateRoutineBtn_disabled := generateRoutineBtn_disabled w;
     userInput := userInput w |}.

Definition setDisabled (b : bool) (w : World) : World :=
  {| OPENAI_API_KEY := OPENAI_API_KEY w;
     allProducts := allProducts w;
     selectedProductIds := selectedProductIds w;
     conversationMessages := conversationMessages w;
     hiddenApiMessages := hiddenApiMessages w;
     chatWindow := chatWindow w;
     generateRoutineBtn_disabled := b;
     userInput := userInput w |}.

Definition setUserInput (s : jsstring) (w : World) : World :=
  {| OPENAI_API_KEY := OPENAI_API_KEY w;
     allProducts := allProducts w;
     selectedProductIds := selectedProductIds w;
     conversationMessages := conversationMessages w;
     hiddenApiMessages := hiddenApiMessages w;
     chatWindow := chatWindow w;
     generateRoutineBtn_disabled := generateRoutineBtn_disabled w;
     userInput := s |}.

(** [conversationMessages.push(m)]. *)
Definition pushVisible (m : Message) (w : World) : World :=
  setConversation (conversationMessages w ++ [Some m]) w.

(** [hiddenApiMessages.push(m)]. *)
Definition pushHidden (m : Message) (w : World) : World :=
  setHidden (hiddenApiMessages w ++ [m]) w.

(** [a[i] = v]: inside the array the slot is overwritten; at or past the
    end the array grows up to [i], the slots in between staying empty. *)
Definition arraySet {A} (i : nat) (v : A) (l : list (option A))
  : list (option A) :=
  if (i <? length l)%nat then <[i := Some v]> l
  else l ++ replicate (i - length l) None ++ [Some v].

Definition assignVisible (i : nat) (m : Message) (w : World) : World :=
  setConversation (arraySet i m (conversationMessages w)) w.

(** The array literal both handlers send:
    [[conversationMessages[0], ...hiddenApiMessages,
      ...conversationMessages.slice(1)]]. An empty slot reads as
    [undefined], here [None]. *)
Definition assembleRequest (w : World) : list (option Message) :=
  mjoin (conversationMessages w !! 0%nat)
  :: map Some (hiddenApiMessages w)
  ++ sliceFrom (conversationMessages w) 1.

Definition isSystem (r : Role) : bool :=
  match r with system => true | _ => false end.

(** [conversationMessages.filter((m) => m.role !== "system")]; [filter]
    does not visit empty slots. *)
Fixpoint visibleMessages (l : list (option Message)) : list Message :=
  match l with
  | [] => []
  | None :: r => visibleMessages r
  | Some m :: r =>
      if isSystem (role m) then visibleMessages r else m :: visibleMessages r
  end.

Definition renderChatWindow (w : World) : World :=
  match visibleMessages (conversationMessages w) with
  | [] =>
      setChatWindow
        (placeholderMessage
           (lit "No messages yet. Generate a routine or ask a question.")) w
  | visible => setChatWindow (chatMessages visible) w
  end.

(** [getApiKey]: the global when it is defined and truthy; the default key
    of the repository is the empty string, so the fallback is [null]. *)
Definition getApiKey (w : World) : option jsstring :=
  match OPENAI_API_KEY w with
  | Some k => if falsy k then None else Some k
  | None => None
  end.

(** ** The remote client (script.js, [sendChatMessagesAndGetReply]) *)

(** The POST of one exchange: the bearer key and the [messages] array. The
    address, the model name, [max_tokens] and [temperature] are constants of
    the source and are left out. *)
Record Request : Type := {
  authorization : jsstring;
  messages : list (option Message)
}.

(** How the exchange ends, read the way the function reads it: [fetch] or
    the reading of the body rejects with an error; the status is not a
    success and the body text is [text]; or the body parses and
    [data.choices[0].message.content] is [content], [None] standing for
    [null] and for every missing link of that path. *)
Inductive Response : Type :=
| Rejected (message : jsstring)
| NotOk (status : N) (text : jsstring)
| Ok (content : option jsstring).

Fixpoint digits (u : Decimal.uint) : jsstring :=
  match u with
  | Decimal.Nil => []
  | Decimal.D0 r => 48 :: digits r
  | Decimal.D1 r => 49 :: digits r
  | Decimal.D2 r => 50 :: digits r
  | Decimal.D3 r => 51 :: digits r
  | Decimal.D4 r => 52 :: digits r
  | Decimal.D5 r => 53 :: digits r
  | Decimal.D6 r => 54 :: digits r
  | Decimal.D7 r => 55 :: digits r
  | Decimal.D8 r => 56 :: digits r
  | Decimal.D9 r => 57 :: digits r
  end.

(** A status code inside a template literal. *)
Definition decimal (n : N) : jsstring := digits (N.to_uint n).

Definition missingKeyError : jsstring :=
  lit "OpenAI API key not set. Create a local secrets.js with: const OPENAI_API_KEY = 'sk-...'; and add it to .gitignore.".

(** The part of [sendChatMessagesAndGetReply] after [fetch] settles. *)
Definition readReply (r : Response) : Completion (option jsstring) :=
  match r with
  | Rejected m => Throw m
  | NotOk status text =>
      Throw (lit "API error " ++ decimal status ++ lit ": " ++ text)
  | Ok content => Normal content
  end.

Definition noReplyError : jsstring :=
  lit "No reply content returned from the API.".

(** [if (!assistantContent) throw new Error(...)] in both callers. *)
Definition requireContent (c : Completion (option jsstring))
  : Completion jsstring :=
  match c with
  | Throw m => Throw m
  | Normal None => Throw noReplyError
  | Normal (Some text) => if falsy text then Throw noReplyError else Normal text
  end.

(** A handler either runs to its end, or it is suspended on one exchange
    with the endpoint: [Await w request resume] leaves the state [w] to the
    other handlers, has sent [request], and continues with [resume] on the
    response and on the state found at that moment. The function awaits a
    second time to read the body; it touches no state in between, so the
    two suspensions are one here. *)
Inductive Task : Type :=
| Done (w : World)
| Await (w : World) (request : Request) (resume : Response -> World -> World).

(** [await sendChatMessagesAndGetReply(messagesForApi)] followed by the
    check of the content, inside a [try]: [handle] is the rest of the
    [try] block on a value and the [catch] block on an error. When no key
    is set the function throws before [fetch] is called. *)
Definition awaitReply (w : World) (messagesForApi : list (option Message))
  (handle : Completion jsstring -> World -> World) : Task :=
  match getApiKey w with
  | None => Done (handle (Throw missingKeyError) w)
  | Some apiKey =>
      Await w
        {| authorization := lit "Bearer " ++ apiKey;
           messages := messagesForApi |}
        (fun r w' => handle (requireContent (readReply r)) w')
  end.

(** ** The handlers *)

Definition selectAtLeastOne : ChatWindow :=
  placeholderMessage
    (lit "Please select at least one product to generate a routine.").

(** The block shown by both handlers when [getApiKey()] is falsy. *)
Definition apiKeyNotSet : ChatWindow :=
  placeholderMessage
    (lit "OpenAI API key is not set. Create a local <code>secrets.js</code> with <code>const OPENAI_API_KEY = "
     ++ [QUOTE] ++ lit "sk-..." ++ [QUOTE]
     ++ lit ";</code> and add that file to .gitignore.").

Definition generatingRoutine : ChatWindow :=
  placeholderMessage (lit "Generating routine" ++ [ELLIPSIS]).

(** The hidden message built from the payload. *)
Definition userPayload `{Host} (selected : list Entry.t) : Message :=
  {| role := user;
     content :=
       lit "Here are the selected products (minimal data only). Create a routine using only these items. For each step, mention which product(s) to use and why."
       ++ [10; 10] ++ JSON_stringify selected |}.

(** [try]/[catch]/[finally] of [generateRoutine], once the reply or the
    error is known. *)
Definition generateRoutine_settle (c : Completion jsstring) (w : World)
  : World :=
  setDisabled false
    match c with
    | Normal assistantContent =>
        renderChatWindow
          (pushVisible {| role := assistant; content := assistantContent |} w)
    | Throw message =>
        setChatWindow
          (placeholderMessage (lit "Error generating routine: " ++ message)) w
    end.

Definition generateRoutine `{Host} (w : World) : Task :=
  let selected :=
    getSelectedProductsPayload (allProducts w) (selectedProductIds w) in
  if (length selected =? 0)%nat then Done (setChatWindow selectAtLeastOne w)
  else
    match getApiKey w with
    | None => Done (setChatWindow apiKeyNotSet w)
    | Some _ =>
        let w1 := pushHidden (userPayload selected) w in
        let messagesForApi := assembleRequest w1 in
        let w2 := setDisabled true (setChatWindow generatingRoutine w1) in
        awaitReply w2 messagesForApi generateRoutine_settle
    end.

Definition refusal : Message :=
  {| role := assistant;
     content :=
       lit "I can only help with the generated routine or questions about skincare, haircare, makeup, fragrance, or how to use the products. Please rephrase your question to relate to those topics." |}.

(** The transient message the submit listener appends. *)
Definition thinking : Message :=
  {| role := assistant; content := lit "..." |}.

(** [try]/[catch] of the submit listener, once the reply or the error is
    known: the slot at [loadingIndex] is assigned. *)
Definition chatSubmit_settle (loadingIndex : nat) (c : Completion jsstring)
  (w : World) : World :=
  match c with
  | Normal assistantContent =>
      renderChatWindow
        (assignVisible loadingIndex
           {| role := assistant; content := assistantContent |} w)
  | Throw message =>
      renderChatWindow
        (assignVisible loadingIndex
           {| role := assistant;
              content := lit "Error responding: " ++ message |} w)
  end.

(** The listener of the chat form's [submit] event. *)
Definition chatSubmit `{Host} (w : World) : Task :=
  let text := trim (userInput w) in
  if falsy text then Done w
  else
    match getApiKey w with
    | None => Done (setChatWindow apiKeyNotSet w)
    | Some _ =>
        if negb (isAllowedQuestion (allProducts w) text)
        then Done (setUserInput [] (renderChatWindow (pushVisible refusal w)))
        else
          let w1 :=
            renderChatWindow
              (pushVisible {| role := user; content := text |} w) in
          let w2 := setUserInput [] w1 in
          let loadingIndex :=
            (length (conversationMessages w2 ++ [Some thinking]) - 1)%nat in
          let w3 := renderChatWindow (pushVisible thinking w2) in
          awaitReply w3 (assembleRequest w3) (chatSubmit_settle loadingIndex)
    end.

(** The state when the script has been loaded: the conversation holds the
    system message only. *)
Definition initialWorld (key : option jsstring) (catalog : list Product.t)
  (selected : list Z) (shown : ChatWindow) : World :=
  {| OPENAI_API_KEY := key;
     allProducts := catalog;
     selectedProductIds := selected;
     conversationMessages := [Some systemMessage];
     hiddenApiMessages := [];
     chatWindow := shown;
     generateRoutineBtn_disabled := false;
     userInput := [] |}.

(** [task] run to its end when no other handler runs in between and the
    endpoint answers [r]. *)
Definition settle (task : Task) (r : Response) : World :=
  match task with
  | Done w => w
  | Await w _ resume => resume r w
  end.

(** ** Fixtures *)

(** The catalog of the end-to-end scenario: one product whose description
    is 500 times the letter A. *)
Definition hydraSerum : Product.t :=
  {| Product.id := 1;
     Product.name := Some (lit "Hydra Serum");
     Product.brand := Some (lit "GlowCo");
     Product.category := Some (lit "skincare");
     Product.image := Some (lit "img/hydra.png");
     Product.description := Some (replicate 500 65) |}.

(** A product whose 500-unit description has one space at position 299. *)
Definition spacedSerum : Product.t :=
  {| Product.id := 2;
     Product.name := Some (lit "Night Cream");
     Product.brand := Some (lit "GlowCo");
     Product.category := Some (lit "skincare");
     Product.image := None;
     Product.description :=
       Some (replicate 299 65 ++ [SPACE] ++ replicate 200 65) |}.

Definition fixtureCatalog : list Product.t := [hydraSerum].

(** The text found in storage in the restore example. *)
Definition storedSelection : jsstring :=
  lit "[1," ++ [QUOTE] ++ lit "abc" ++ [QUOTE] ++ lit ",99,null,"
  ++ [QUOTE] ++ lit "1" ++ [QUOTE] ++ lit ",1.5]".

Definition isDigit (c : N) : bool := (48 <=? c) && (c <=? 57).

(** A host for the examples. It lower-cases ASCII letters only, parses
    [storedSelection] and no other text, and reads a string as a number
    when it is a run of decimal digits; the examples use it on such inputs
    only. *)
Definition fixtureHost : Host :=
  {| toLowerCase := map lowerAscii;
     toLowerCase_ascii := fun s _ => eq_refl;
     JSON_stringify := fun selected => lit "[...]";
     JSON_parse := fun raw =>
       if bool_decide (raw = storedSelection)
       then Normal (JArray [ JNumber (Integral 1); JString (lit "abc");
                             JNumber (Integral 99); JNull;
                             JString (lit "1"); JNumber NonIntegral ])
       else Throw (lit "Unexpected token");
     StringToNumber := fun s =>
       if negb (falsy s) && forallb isDigit s
       then Integral
              (Z.of_N (fold_left (fun acc c => 10 * acc + (c - 48)) s 0))
       else NonIntegral;
     ToPrimitive := fun v => lit "[object Object]" |}.

Definition fixtureWorld (key : option jsstring) (selected : list Z)
  (input : jsstring) : World :=
  setUserInput input
    (initialWorld key fixtureCatalog selected
       (placeholderMessage (lit "Select products"))).

Definition stockQuestion : jsstring :=
  lit "What's today's stock market doing?".

Definition serumQuestion : jsstring :=
  lit "What time should I apply my serum?".

(** ** The page: selection controls, storage and views *)

(** [set.has(z)] and [set.delete(z)] on a set of identifiers; the members
    that stay keep their order. *)
Definition setHas (z : Z) (s : list Z) : bool := existsb (Z.eqb z) s.

Definition setDelete (z : Z) (s : list Z) : list Z :=
  List.filter (fun x => negb (x =? z)%Z) s.

(** [localStorage] at the key [selectedProducts]: the stored text, and the
    error [setItem] or [getItem] throws, when it does (quota exceeded,
    storage disabled). *)
Record Storage : Type := {
  item : option jsstring;
  setItemError : option jsstring;
  getItemError : option jsstring
}.

Definition getItem (st : Storage) : Completion (option jsstring) :=
  match getItemError st with
  | Some m => Throw m
  | None => Normal (item st)
  end.

Definition setItem (v : jsstring) (st : Storage) : Completion Storage :=
  match setItemError st with
  | Some m => Throw m
  | None =>
      Normal {| item := Some v;
                setItemError := setItemError st;
                getItemError := getItemError st |}
  end.

(** [JSON.stringify] on an array of identifiers. The text of an array
    starts with a bracket, which is all that is assumed of it here. *)
Class NumberText : Type := {
  JSON_stringify_numbers : list Z -> jsstring;
  JSON_stringify_numbers_bracket :
    forall ids, exists rest, JSON_stringify_numbers ids = 91 :: rest
}.

(** What [productsContainer.innerHTML] shows: a [placeholder-message]
    block, or one card per product, marked [selected] or not. *)
Inductive ProductsView : Type :=
| productsPlaceholder (text : jsstring)
| productCards (cards : list (Product.t * bool)).

(** What [selectedProductsList.innerHTML] shows: a placeholder block, or
    one chip per product. *)
Inductive SelectedView : Type :=
| selectedPlaceholder (text : jsstring)
| selectedChips (chips : list Product.t).

(** The state of the script together with the page elements and the
    storage that the selection controls touch. [console] holds the
    arguments of each [console.error] call. *)
Record Page : Type := {
  world : World;
  categoryFilter_value : jsstring;
  productsContainer : ProductsView;
  selectedProductsList : SelectedView;
  localStorage : Storage;
  console : list (list jsstring)
}.

Definition setSelected (ids : list Z) (w : World) : World :=
  {| OPENAI_API_KEY := OPENAI_API_KEY w;
     allProducts := allProducts w;
     selectedProductIds := ids;
     conversationMessages := conversationMessages w;
     hiddenApiMessages := hiddenApiMessages w;
     chatWindow := chatWindow w;
     generateRoutineBtn_disabled := generateRoutineBtn_disabled w;
     userInput := userInput w |}.

Definition setAllProducts (catalog : list Product.t) (w : World) : World :=
  {| OPENAI_API_KEY := OPENAI_API_KEY w;
     allProducts := catalog;
     selectedProductIds := selectedProductIds w;
     conversationMessages := conversationMessages w;
     hiddenApiMessages := hiddenApiMessages w;
     chatWindow := chatWindow w;
     generateRoutineBtn_disabled := generateRoutineBtn_disabled w;
     userInput := userInput w |}.

Definition setWorld (w : World) (p : Page) : Page :=
  {| world := w;
     categoryFilter_value := categoryFilter_value p;
     productsContainer := productsContainer p;
     selectedProductsList := selectedProductsList p;
     localStorage := localStorage p;
     console := console p |}.

Definition setCategory (v : jsstring) (p : Page) : Page :=
  {| world := world p;
     categoryFilter_value := v;
     productsContainer := productsContainer p;
     selectedProductsList := selectedProductsList p;
     localStorage := localStorage p;
     console := console p |}.

Definition setProductsContainer (v : ProductsView) (p : Page) : Page :=
  {| world := world p;
     categoryFilter_value := categoryFilter_value p;
     productsContainer := v;
     selectedProductsList := selectedProductsList p;
     localStorage := localStorage p;
     console := console p |}.

Definition setSelectedProductsList (v : SelectedView) (p : Page) : Page :=
  {| world := world p;
     categoryFilter_value := categoryFilter_value p;
     productsContainer := productsContainer p;
     selectedProductsList := v;
     localStorage := localStorage p;
     console := console p |}.

Definition setLocalStorage (st : Storage) (p : Page) : Page :=
  {| world := world p;
     categoryFilter_value := categoryFilter_value p;
     productsContainer := productsContainer p;
     selectedProductsList := selectedProductsList p;
     localStorage := st;
     console := console p |}.

Definition consoleError (args : list jsstring) (p : Page) : Page :=
  {| world := world p;
     categoryFilter_value := categoryFilter_value p;
     productsContainer := productsContainer p;
     selectedProductsList := selectedProductsList p;
     localStorage := localStorage p;
     console := console p ++ [args] |}.

(** [saveSelectedProducts]: the members, in order, are written as JSON
    text; an error of [setItem] is caught and logged. *)
Definition saveSelectedProducts `{NumberText} (p : Page) : Page :=
  match
    setItem (JSON_stringify_numbers (selectedProductIds (world p)))
      (localStorage p)
  with
  | Normal st => setLocalStorage st p
  | Throw m => consoleError [lit "Could not save selected products:"; m] p
  end.

(** [loadSelectedProducts] on the page: it reads [localStorage] and
    mutates [selectedProductIds]. *)
Definition loadSelected `{Host} (p : Page) : Page :=
  match
    loadSelectedProducts (getItem (localStorage p)) (allProducts (world p))
      (selectedProductIds (world p))
  with
  | Normal (selected, []) => setWorld (setSelected selected (world p)) p
  | Normal (selected, logged) =>
      consoleError logged (setWorld (setSelected selected (world p)) p)
  | Throw _ => p
  end.

(** [displayProducts(products)]. *)
Definition displayProducts (products : list Product.t) (p : Page) : Page :=
  match products with
  | [] =>
      setProductsContainer
        (productsPlaceholder (lit "No products found for this category")) p
  | _ :: _ =>
      setProductsContainer
        (productCards
           (map (fun product =>
                   (product,
                    setHas (Product.id product)
                      (selectedProductIds (world p))))
              products)) p
  end.

(** [updateSelectedProductsList]: an identifier that [find] does not
    locate contributes the empty string to the markup, that is no chip. *)
Definition updateSelectedProductsList (p : Page) : Page :=
  match selectedProductIds (world p) with
  | [] =>
      setSelectedProductsList
        (selectedPlaceholder (lit "No products selected")) p
  | ids =>
      setSelectedProductsList
        (selectedChips
           (filterBoolean (map (findProduct (allProducts (world p))) ids))) p
  end.

(** [p.category === c]. *)
Definition hasCategory (c : jsstring) (product : Product.t) : bool :=
  match Product.category product with
  | Some c' => bool_decide (c' = c)
  | None => false
  end.

(** The products shown again after the selection changed:
    [currentCategory ? allProducts.filter(...) : allProducts]. *)
Definition visibleProducts (p : Page) : list Product.t :=
  if falsy (categoryFilter_value p) then allProducts (world p)
  else List.filter (hasCategory (categoryFilter_value p)) (allProducts (world p)).

(** The three steps that end [toggleProductSelection] and
    [removeSelected]: save, show the grid again, show the chips again. *)
Definition persistAndRefresh `{NumberText} (p : Page) : Page :=
  let p1 := saveSelectedProducts p in
  updateSelectedProductsList (displayProducts (visibleProducts p1) p1).

(** [toggleProductSelection(productId)]. The argument is the number read
    from the [data-id] of a card, which the grid writes from the [id] of a
    catalog record: an integer. *)
Definition toggleProductSelection `{NumberText} (productId : Z) (p : Page)
  : Page :=
  let ids := selectedProductIds (world p) in
  let ids' :=
    if setHas productId ids then setDelete productId ids
    else setAdd productId ids in
  persistAndRefresh (setWorld (setSelected ids' (world p)) p).

(** [removeSelected(productId)], called by the remove button of a chip. *)
Definition removeSelected `{NumberText} (productId : Z) (p : Page) : Page :=
  let ids := selectedProductIds (world p) in
  if setHas productId ids
  then
    persistAndRefresh
      (setWorld (setSelected (setDelete productId ids) (world p)) p)
  else p.

(** The listener of the category select: [e.target.value] is the new value
    of the select, and the products of that category are shown. *)
Definition categoryChange (selectedCategory : jsstring) (p : Page) : Page :=
  let p1 := setCategory selectedCategory p in
  displayProducts
    (List.filter (hasCategory selectedCategory) (allProducts (world p1))) p1.

(** [init], once [loadProducts] has returned [catalog]: the catalog is
    stored, the saved selection is restored and the chips are shown. *)
Definition init `{Host} (catalog : list Product.t) (p : Page) : Page :=
  let p1 := setWorld (setAllProducts catalog (world p)) p in
  updateSelectedProductsList (updateSelectedProductsList (loadSelected p1)).

(** The page when the script starts: nothing selected, no catalog yet, the
    grid asking for a category. *)
Definition startPage (key : option jsstring) (shown : ChatWindow)
  (chips : SelectedView) (category : jsstring) (st : Storage) : Page :=
  {| world := initialWorld key [] [] shown;
     categoryFilter_value := category;
     productsContainer :=
       productsPlaceholder (lit "Select a category to view products");
     selectedProductsList := chips;
     localStorage := st;
     console := [] |}.

(** * Vocabulary of the statements *)

(** ** Strings *)

(** The first unit is white space. *)
Definition startsWhite (s : jsstring) : bool :=
  match s with
  | [] => false
  | c :: _ => isWhiteSpace c
  end.

(** Every white-space unit is a space and is followed by none: the strings
    that [collapse] leaves alone. *)
Fixpoint singleSpaced (s : jsstring) : bool :=
  match s with
  | [] => true
  | c :: r =>
      (if isWhiteSpace c then (c =? SPACE) && negb (startsWhite r) else true)
      && singleSpaced r
  end.

(** The strings fixed by [trim (collapse _)]. *)
Definition tidy (s : jsstring) : Prop :=
  singleSpaced s = true /\ trim s = s.

(** [k] occurs in [s]: some units, then [k], then some units. *)
Definition occursIn (k s : jsstring) : Prop :=
  exists before after, s = before ++ k ++ after.

(** ** Payload, selection and validator *)

(** The entry made from a catalog record: four fields, the description
    sanitized with the limit 300. *)
Definition projection (p : Product.t) : Entry.t :=
  {| Entry.name := orEmpty (Product.name p);
     Entry.brand := orEmpty (Product.brand p);
     Entry.category := orEmpty (Product.category p);
     Entry.description :=
       sanitizeText (orEmpty (Product.description p)) 300 |}.

Definition noWhiteSpace (s : jsstring) : bool :=
  forallb (fun c => negb (isWhiteSpace c)) s.

(** An entry is kept when its number is the identifier of a record. *)
Definition kept `{Host} (catalog : list Product.t) (raw : JSON) (z : Z) : Prop :=
  toNumber raw = Integral z
  /\ exists p, In p catalog /\ Product.id p = z.

(** The lower-cased name of the record, or its lower-cased brand, is not
    empty and occurs in [s]. *)
Definition Mentioned `{Host} (s : jsstring) (p : Product.t) : Prop :=
  (toLowerCase (orEmpty (Product.name p)) <> []
   /\ occursIn (toLowerCase (orEmpty (Product.name p))) s)
  \/ (toLowerCase (orEmpty (Product.brand p)) <> []
      /\ occursIn (toLowerCase (orEmpty (Product.brand p))) s).

(** ** Conversation *)

(** The two ways the handlers extend the conversation: a hidden user
    message, or a visible message with its role. *)
Inductive Append : Type :=
| appendHidden (content : jsstring)
| appendVisible (r : Role) (content : jsstring).

Definition append (w : World) (op : Append) : World :=
  match op with
  | appendHidden c => pushHidden {| role := user; content := c |} w
  | appendVisible r c => pushVisible {| role := r; content := c |} w
  end.

Fixpoint hiddenOf (ops : list Append) : list Message :=
  match ops with
  | [] => []
  | appendHidden c :: r => {| role := user; content := c |} :: hiddenOf r
  | appendVisible _ _ :: r => hiddenOf r
  end.

Fixpoint visibleOf (ops : list Append) : list Message :=
  match ops with
  | [] => []
  | appendHidden _ :: r => visibleOf r
  | appendVisible ro c :: r => {| role := ro; content := c |} :: visibleOf r
  end.

(** What the slot holds once the exchange has ended. *)
Definition finalContent (r : Response) : jsstring :=
  match requireContent (readReply r) with
  | Normal assistantContent => assistantContent
  | Throw message => lit "Error responding: " ++ message
  end.

Definition fixtureKey : jsstring := lit "sk-test".

(** ** Selection and conversation invariants *)

(** The catalog holds a record with this identifier. *)
Definition inCatalog (catalog : list Product.t) (z : Z) : bool :=
  match findProduct catalog z with
  | Some _ => true
  | None => false
  end.

(** The selection after a click, as a function of the selection before. *)
Definition toggled (productId : Z) (ids : list Z) : list Z :=
  if setHas productId ids then setDelete productId ids
  else setAdd productId ids.

(** A product belongs on the grid for the value of the category select:
    any product when no category is chosen, otherwise a product whose
    category is that value. *)
Definition onGrid (value : jsstring) (product : Product.t) : bool :=
  falsy value || bool_decide (Product.category product = Some value).

(** A run of clicks on product cards. *)
Definition toggleAll `{NumberText} (ids : list Z) (p : Page) : Page :=
  fold_left (fun q productId => toggleProductSelection productId q) ids p.

(** The conversation as the handlers keep it: the system message first,
    then messages that are not system messages, no slot being empty. *)
Definition WellFormed (conv : list (option Message)) (rest : list Message)
  : Prop :=
  conv = Some systemMessage :: map Some rest
  /\ Forall (fun m => isSystem (role m) = false) rest.

Definition wellFormed (conv : list (option Message)) : Prop :=
  exists rest, WellFormed conv rest.

(** The selection invariant: no member is repeated and each one is the
    identifier of a catalog record. *)
Definition validSelection (w : World) : Prop :=
  NoDup (selectedProductIds w)
  /\ Forall (fun z => inCatalog (allProducts w) z = true)
       (selectedProductIds w).

(** Two states with the same selection, catalog and key. *)
Definition sameSetting (w w' : World) : Prop :=
  selectedProductIds w' = selectedProductIds w
  /\ allProducts w' = allProducts w
  /\ OPENAI_API_KEY w' = OPENAI_API_KEY w.

(** The message of the error a response ends in, when it brings no
    content. *)
Definition errorText (r : Response) : jsstring :=
  match r with
  | Rejected m => m
  | NotOk status text => lit "API error " ++ decimal status ++ lit ": " ++ text
  | Ok _ => noReplyError
  end.

(** The content a response brings: a reply that is not empty. *)
Definition replyText (r : Response) : option jsstring :=
  match r with
  | Ok (Some c) => if falsy c then None else Some c
  | _ => None
  end.

(** The JSON text of an integer, and of a list of integers separated by
    commas. *)
Definition decimalZ (z : Z) : jsstring :=
  if (z <? 0)%Z then 45 :: decimal (Z.to_N (- z)) else decimal (Z.to_N z).

Fixpoint joinNumbers (ids : list Z) : jsstring :=
  match ids with
  | [] => []
  | [z] => decimalZ z
  | z :: r => decimalZ z ++ [44] ++ joinNumbers r
  end.

(** The text writer of the examples: it writes identifiers the way
    [JSON.stringify] writes integers of ordinary size. *)
Definition fixtureText : NumberText :=
  {| JSON_stringify_numbers := fun ids => 91 :: joinNumbers ids ++ [93];
     JSON_stringify_numbers_bracket := fun ids => ex_intro _ _ eq_refl |}.

Definition workingStorage (text : option jsstring) : Storage :=
  {| item := text; setItemError := None; getItemError := None |}.

Definition fullStorage (text : option jsstring) : Storage :=
  {| item := text;
     setItemError := Some (lit "QuotaExceededError");
     getItemError := None |}.

(** The page of the examples: a catalog of two products of one category,
    the grid filtered on that category. *)
Definition fixturePage (selected : list Z) (st : Storage) : Page :=
  {| world :=
       initialWorld (Some (lit "sk-test")) [hydraSerum; spacedSerum] selected
         (placeholderMessage (lit "Select products"));
     categoryFilter_value := lit "skincare";
     productsContainer :=
       productsPlaceholder (lit "Select a category to view products");
     selectedProductsList := selectedPlaceholder (lit "No products selected");
     localStorage := st;
     console := [] |}.

(** A host that parses the text [fixtureText] writes for the selection
    [1; 2]. *)
Definition fixturePageHost : Host :=
  {| toLowerCase := map lowerAscii;
     toLowerCase_ascii := fun s _ => eq_refl;
     JSON_stringify := fun selected => lit "[...]";
     JSON_parse := fun raw =>
       if bool_decide (raw = lit "[1,2]")
       then Normal (JArray [JNumber (Integral 1); JNumber (Integral 2)])
       else Throw (lit "Unexpected token");
     StringToNumber := fun s => NonIntegral;
     ToPrimitive := fun v => lit "[object Object]" |}.

(** * Properties *)

(** ** White space, [collapse] and [trim] *)

Lemma ellipsis_not_white : isWhiteSpace ELLIPSIS = false.
Proof. reflexivity. Qed.

Lemma replaceRuns_inRun s :
  startsWhite s = false -> replaceRuns true s = replaceRuns false s.
Proof. destruct s as [|c r]; simpl; [done|]. by intros ->. Qed.

Lemma replaceRuns_true_head s : startsWhite (replaceRuns true s) = false.
Proof.
  induction s as [|c r IH]; simpl; [done|].
  destruct (isWhiteSpace c) eqn:Hc; simpl; [done|]. by rewrite Hc.
Qed.

Lemma singleSpaced_replaceRuns b s : singleSpaced (replaceRuns b s) = true.
Proof.
  revert b. induction s as [|c r IH]; intros b; simpl; [done|].
  destruct (isWhiteSpace c) eqn:Hc.
  - destruct b; [apply IH|]. simpl.
    rewrite replaceRuns_true_head, IH. reflexivity.
  - simpl. rewrite Hc, IH. reflexivity.
Qed.

Lemma collapse_singleSpaced s : singleSpaced s = true -> collapse s = s.
Proof.
  unfold collapse. induction s as [|c r IH]; simpl; [done|].
  intros [Hc Hr]%andb_true_iff. destruct (isWhiteSpace c).
  - apply andb_true_iff in Hc as [->%N.eqb_eq Hw%negb_true_iff].
    rewrite (replaceRuns_inRun _ Hw), (IH Hr). reflexivity.
  - by rewrite (IH Hr).
Qed.

Lemma singleSpaced_tail c r : singleSpaced (c :: r) = true -> singleSpaced r = true.
Proof. simpl. by intros [_ ?]%andb_true_iff. Qed.

Lemma singleSpaced_trimStart s :
  singleSpaced s = true -> singleSpaced (trimStart s) = true.
Proof.
  induction s as [|c r IH]; [done|]. intros Hs. simpl trimStart.
  destruct (isWhiteSpace c); [|done]. eauto using singleSpaced_tail.
Qed.

Lemma trimEnd_head s x r : trimEnd s = x :: r -> exists r', s = x :: r'.
Proof.
  destruct s as [|c s']; simpl; [done|].
  destruct (trimEnd s'); [destruct (isWhiteSpace c)|]; intros [= <- _]; eauto.
Qed.

Lemma startsWhite_trimEnd s :
  startsWhite s = false -> startsWhite (trimEnd s) = false.
Proof.
  intros Hs. destruct (trimEnd s) as [|x r] eqn:E; [done|].
  apply trimEnd_head in E as [r' ->]. exact Hs.
Qed.

Lemma singleSpaced_trimEnd s :
  singleSpaced s = true -> singleSpaced (trimEnd s) = true.
Proof.
  induction s as [|c r IH]; [done|]. intros Hs.
  pose proof (singleSpaced_tail _ _ Hs) as Hr. specialize (IH Hr).
  simpl trimEnd. destruct (trimEnd r) as [|x r'] eqn:E.
  - destruct (isWhiteSpace c) eqn:Hc; [done|]. simpl. by rewrite Hc.
  - apply trimEnd_head in E as [r'' ->].
    simpl in Hs |- *. apply andb_true_iff in Hs as [Hc _].
    simpl in IH. rewrite IH, andb_true_r. exact Hc.
Qed.

Lemma startsWhite_take n s :
  startsWhite (take n s) = true -> startsWhite s = true.
Proof. destruct n, s; simpl; done. Qed.

Lemma singleSpaced_take n s :
  singleSpaced s = true -> singleSpaced (take n s) = true.
Proof.
  revert n. induction s as [|c r IH]; intros [|n]; simpl; try done.
  intros [Hc Hr]%andb_true_iff. rewrite (IH n Hr), andb_true_r.
  destruct (isWhiteSpace c); [|done].
  apply andb_true_iff in Hc as [-> Hw%negb_true_iff]. simpl.
  apply negb_true_iff. destruct (startsWhite (take n r)) eqn:E; [|done].
  apply startsWhite_take in E. congruence.
Qed.

Lemma startsWhite_trimStart s : startsWhite (trimStart s) = false.
Proof.
  induction s as [|c r IH]; simpl; [done|].
  destruct (isWhiteSpace c) eqn:Hc; [done|]. simpl. exact Hc.
Qed.

Lemma trimStart_fixed s : startsWhite s = false -> trimStart s = s.
Proof. destruct s as [|c r]; simpl; [done|]. by intros ->. Qed.

Lemma trimEnd_idemp s : trimEnd (trimEnd s) = trimEnd s.
Proof.
  induction s as [|c r IH]; simpl; [done|].
  destruct (trimEnd r) as [|x r'] eqn:E.
  - destruct (isWhiteSpace c) eqn:Hc; simpl; [done|]. by rewrite Hc.
  - change (trimEnd (c :: x :: r')) with
      (match trimEnd (x :: r') with
       | [] => if isWhiteSpace c then [] else [c]
       | y => c :: y
       end).
    rewrite IH. reflexivity.
Qed.

Lemma trim_startsWhite s : startsWhite (trim s) = false.
Proof. apply startsWhite_trimEnd, startsWhite_trimStart. Qed.

Lemma trim_idemp s : trim (trim s) = trim s.
Proof.
  unfold trim at 1. rewrite (trimStart_fixed _ (trim_startsWhite s)).
  apply trimEnd_idemp.
Qed.

Lemma trimEnd_snoc s x : isWhiteSpace x = false -> trimEnd (s ++ [x]) = s ++ [x].
Proof.
  intros Hx. induction s as [|c r IH]; simpl; [by rewrite Hx|].
  rewrite IH. by destruct r.
Qed.

Lemma singleSpaced_snoc s x :
  isWhiteSpace x = false -> singleSpaced s = true ->
  singleSpaced (s ++ [x]) = true.
Proof.
  intros Hx. induction s as [|c r IH]; simpl; [by rewrite Hx|].
  intros [Hc Hr]%andb_true_iff. rewrite (IH Hr), andb_true_r.
  destruct (isWhiteSpace c); [|done].
  apply andb_true_iff in Hc as [-> Hw]. simpl.
  destruct r; simpl in *; [by rewrite Hx | done].
Qed.

Lemma tidy_fixed s : tidy s -> trim (collapse s) = s.
Proof. intros [Hs Ht]. by rewrite (collapse_singleSpaced _ Hs). Qed.

Lemma tidy_normal s : tidy (trim (collapse s)).
Proof.
  split; [|apply trim_idemp].
  apply singleSpaced_trimEnd, singleSpaced_trimStart, singleSpaced_replaceRuns.
Qed.

Lemma tidy_trim_take n s : tidy s -> tidy (trim (take n s)).
Proof.
  intros [Hs _]. split; [|apply trim_idemp].
  by apply singleSpaced_trimEnd, singleSpaced_trimStart, singleSpaced_take.
Qed.

Lemma tidy_snoc s x : isWhiteSpace x = false -> tidy s -> tidy (s ++ [x]).
Proof.
  intros Hx [Hs Ht]. split; [by apply singleSpaced_snoc|].
  unfold trim. rewrite trimStart_fixed; [by apply trimEnd_snoc|].
  destruct s as [|c r]; simpl; [done|].
  pose proof (trim_startsWhite (c :: r)) as Hw. rewrite Ht in Hw. exact Hw.
Qed.

(** ** [slice] from the start *)

Lemma slice_prefix {A} (l : list A) (n : Z) :
  (0 <= n)%Z -> slice l 0 n = take (Z.to_nat n) l.
Proof.
  intros Hn. unfold slice, relIndex.
  replace (0 <? 0)%Z with false by reflexivity.
  replace (n <? 0)%Z with false by (symmetry; apply Z.ltb_ge; lia).
  rewrite (Z.min_l 0) by lia. simpl. rewrite Z.sub_0_r.
  destruct (Z.le_ge_cases n (Z.of_nat (length l))) as [Hle|Hge].
  - by rewrite Z.min_l.
  - rewrite Z.min_r, Nat2Z.id by lia.
    change (drop (Z.to_nat 0) l) with l.
    rewrite !take_ge; [done| lia | lia].
Qed.

Lemma sliceFrom_1 {A} (l : list A) : sliceFrom l 1 = drop 1 l.
Proof.
  destruct l as [|x l']; [reflexivity|].
  unfold sliceFrom, slice, relIndex.
  replace (1 <? 0)%Z with false by reflexivity.
  replace (Z.of_nat (length (x :: l')) <? 0)%Z with false
    by (symmetry; apply Z.ltb_ge; lia).
  rewrite Z.min_id, (Z.min_l 1) by (simpl length; lia).
  change (Z.to_nat 1) with 1%nat.
  apply take_ge. rewrite length_drop. lia.
Qed.

(** ** The sanitizer is idempotent *)

Lemma sanitizeText_tidy text maxLen :
  (0 <= maxLen)%Z -> tidy (sanitizeText text maxLen).
Proof.
  intros Hn. unfold sanitizeText. destruct (falsy text); [done|]. simpl.
  destruct (Z.of_nat (length (trim (collapse text))) >? maxLen)%Z.
  - rewrite slice_prefix by done.
    apply tidy_snoc; [done|]. apply tidy_trim_take, tidy_normal.
  - apply tidy_normal.
Qed.

Lemma length_trimEnd s : (length (trimEnd s) <= length s)%nat.
Proof.
  induction s as [|c r IH]; simpl; [done|].
  destruct (trimEnd r); [destruct (isWhiteSpace c)|]; simpl in *; lia.
Qed.

Lemma length_trimStart s : (length (trimStart s) <= length s)%nat.
Proof.
  induction s as [|c r IH]; simpl; [done|].
  destruct (isWhiteSpace c); simpl; lia.
Qed.

Lemma length_trim s : (length (trim s) <= length s)%nat.
Proof.
  unfold trim. pose proof (length_trimEnd (trimStart s)).
  pose proof (length_trimStart s). lia.
Qed.

(** On a tidy string the sanitizer either returns it, or cuts it. *)
Lemma sanitizeText_on_tidy s maxLen :
  (0 <= maxLen)%Z -> tidy s ->
  sanitizeText s maxLen =
    if (Z.of_nat (length s) >? maxLen)%Z
    then trim (slice s 0 maxLen) ++ [ELLIPSIS] else s.
Proof.
  intros Hn Hs. unfold sanitizeText. rewrite (tidy_fixed _ Hs).
  destruct s; [|done]. simpl length.
  replace (Z.of_nat 0 >? maxLen)%Z with false; [done|].
  symmetry. rewrite Z.gtb_ltb. apply Z.ltb_ge. exact Hn.
Qed.

(** C4. For every text and every limit that is a length (not negative),
    sanitizing the output of [sanitizeText] again with the same limit
    returns it unchanged. On the text "a    b    c    extra words here"
    with limit 10 the output is the 10 units "a b c extr" followed by the
    ellipsis, and sanitizing it again gives the same string. *)
Theorem sanitizeText_idempotent (text : jsstring) (maxLen : Z) :
  (0 <= maxLen)%Z ->
  sanitizeText (sanitizeText text maxLen) maxLen = sanitizeText text maxLen
  /\ sanitizeText fixture_text 10 = lit "a b c extr" ++ [ELLIPSIS]
  /\ length (sanitizeText fixture_text 10) = 11%nat
  /\ sanitizeText (sanitizeText fixture_text 10) 10
     = sanitizeText fixture_text 10.
Proof.
  intros Hn. split; [|by vm_compute].
  rewrite (sanitizeText_on_tidy _ _ Hn (sanitizeText_tidy text maxLen Hn)).
  destruct (Z.of_nat (length (sanitizeText text maxLen)) >? maxLen)%Z eqn:Hlong;
    [|done].
  apply Z.gtb_lt in Hlong. revert Hlong. unfold sanitizeText.
  destruct (falsy text); [simpl; lia|]. simpl.
  destruct (Z.of_nat (length (trim (collapse text))) >? maxLen)%Z eqn:Hcut.
  - (* the first call has cut: the cut part has exactly [maxLen] units *)
    rewrite !slice_prefix by done.
    set (t := trim (take (Z.to_nat maxLen) (trim (collapse text)))) in *.
    intros Hlen. rewrite length_app in Hlen. simpl in Hlen.
    assert (length t = Z.to_nat maxLen) as Ht.
    { pose proof (length_trim (take (Z.to_nat maxLen) (trim (collapse text))))
        as Hle.
      rewrite length_take in Hle. fold t in Hle. lia. }
    rewrite take_app_length' by done. f_equal.
    apply trim_idemp.
  - intros Hlen. rewrite Z.gtb_ltb in Hcut. apply Z.ltb_ge in Hcut. lia.
Qed.

Lemma sanitizeText_idempotent_witness :
  (0 <= 10)%Z
  /\ sanitizeText (sanitizeText fixture_text 10) 10
     = sanitizeText fixture_text 10.
Proof.
  split; [lia|].
  exact (proj1 (sanitizeText_idempotent fixture_text 10 ltac:(lia))).
Defined.

(** A negative limit is not a length: [slice] then counts from the end,
    and a second pass cuts again. *)
Example sanitizeText_negative_limit :
  sanitizeText (lit "abcd") (-2) = lit "ab" ++ [ELLIPSIS]
  /\ sanitizeText (sanitizeText (lit "abcd") (-2)) (-2) = lit "a" ++ [ELLIPSIS].
Proof. by vm_compute. Qed.

(** ** Assembling the request *)

Lemma assembleRequest_cons w h rest :
  conversationMessages w = h :: rest ->
  assembleRequest w = h :: map Some (hiddenApiMessages w) ++ rest.
Proof.
  intros E. unfold assembleRequest. rewrite sliceFrom_1, E. reflexivity.
Qed.

Lemma append_all_conversation ops w :
  conversationMessages (fold_left append ops w)
  = conversationMessages w ++ map Some (visibleOf ops).
Proof.
  revert w. induction ops as [|[c|r c] ops IH]; intros w; simpl.
  - by rewrite app_nil_r.
  - by rewrite IH.
  - rewrite IH. simpl. by rewrite <- app_assoc.
Qed.

Lemma append_all_hidden ops w :
  hiddenApiMessages (fold_left append ops w)
  = hiddenApiMessages w ++ hiddenOf ops.
Proof.
  revert w. induction ops as [|[c|r c] ops IH]; intros w; simpl.
  - by rewrite app_nil_r.
  - rewrite IH. simpl. by rewrite <- app_assoc.
  - by rewrite IH.
Qed.

(** C1. Whatever the interleaving of hidden and visible appends since the
    script was loaded, the assembled request is the system message, then
    the hidden messages in the order they were appended, then the visible
    messages in the order they were appended. *)
Theorem assembleRequest_order (ops : list Append) (key : option jsstring)
  (catalog : list Product.t) (selected : list Z) (shown : ChatWindow) :
  assembleRequest
    (fold_left append ops (initialWorld key catalog selected shown))
  = Some systemMessage
    :: map Some (hiddenOf ops) ++ map Some (visibleOf ops).
Proof.
  rewrite (assembleRequest_cons _ (Some systemMessage)
             (map Some (visibleOf ops))).
  - by rewrite append_all_hidden.
  - by rewrite append_all_conversation.
Qed.

(** ** The handlers *)

Section Handlers.
Context `{Host}.

Lemma renderChatWindow_conversation w :
  conversationMessages (renderChatWindow w) = conversationMessages w.
Proof. unfold renderChatWindow. by destruct (visibleMessages _). Qed.

Lemma renderChatWindow_hidden w :
  hiddenApiMessages (renderChatWindow w) = hiddenApiMessages w.
Proof. unfold renderChatWindow. by destruct (visibleMessages _). Qed.

Lemma renderChatWindow_selected w :
  selectedProductIds (renderChatWindow w) = selectedProductIds w.
Proof. unfold renderChatWindow. by destruct (visibleMessages _). Qed.

Lemma renderChatWindow_key w :
  getApiKey (renderChatWindow w) = getApiKey w.
Proof. unfold renderChatWindow. by destruct (visibleMessages _). Qed.

Lemma generateRoutine_settle_hidden c w :
  hiddenApiMessages (generateRoutine_settle c w) = hiddenApiMessages w.
Proof.
  unfold generateRoutine_settle. destruct c; simpl; [|done].
  by rewrite renderChatWindow_hidden.
Qed.

(** The three ways [generateRoutine] goes, by the payload and the key. *)
Lemma generateRoutine_cases w :
  let selected :=
    getSelectedProductsPayload (allProducts w) (selectedProductIds w) in
  (selected = [] /\ generateRoutine w = Done (setChatWindow selectAtLeastOne w))
  \/ (selected <> [] /\ getApiKey w = None
      /\ generateRoutine w = Done (setChatWindow apiKeyNotSet w))
  \/ (selected <> [] /\ exists apiKey, getApiKey w = Some apiKey
      /\ generateRoutine w =
         Await
           (setDisabled true
              (setChatWindow generatingRoutine
                 (pushHidden (userPayload selected) w)))
           {| authorization := lit "Bearer " ++ apiKey;
              messages :=
                assembleRequest (pushHidden (userPayload selected) w) |}
           (fun r w' =>
              generateRoutine_settle (requireContent (readReply r)) w')).
Proof.
  intros selected. unfold generateRoutine. fold selected.
  destruct selected as [|e rest] eqn:E; [left; done|right].
  simpl. destruct (getApiKey w) as [apiKey|] eqn:K.
  - right. split; [done|]. exists apiKey. split; [done|].
    unfold awaitReply.
    replace (getApiKey _) with (Some apiKey). reflexivity.
  - left. done.
Qed.

(** C2, as the code has it. The hidden log gains exactly one message, the
    payload, for every request that reaches the endpoint: it is appended
    before the request is sent, and nothing the response brings (a reply,
    a remote error, an empty reply) changes the log afterwards. A request
    that stops early (empty payload, or no key) leaves the log as it was. *)
Theorem generateRoutine_hidden_log (w : World) :
  match generateRoutine w with
  | Done w' =>
      (getSelectedProductsPayload (allProducts w) (selectedProductIds w) = []
       \/ getApiKey w = None)
      /\ hiddenApiMessages w' = hiddenApiMessages w
  | Await w' request resume =>
      getSelectedProductsPayload (allProducts w) (selectedProductIds w) <> []
      /\ getApiKey w <> None
      /\ hiddenApiMessages w'
         = hiddenApiMessages w
           ++ [userPayload
                 (getSelectedProductsPayload (allProducts w)
                    (selectedProductIds w))]
      /\ forall r w'',
           hiddenApiMessages (resume r w'') = hiddenApiMessages w''
  end.
Proof.
  destruct (generateRoutine_cases w)
    as [[E ->]|[(E & K & ->)|(E & apiKey & K & ->)]].
  - split; [by left | done].
  - split; [by right | done].
  - split; [done|]. split; [congruence|]. split; [done|].
    intros r w''. apply generateRoutine_settle_hidden.
Qed.

Lemma findProduct_Some catalog id p :
  findProduct catalog id = Some p -> In p catalog /\ Product.id p = id.
Proof.
  unfold findProduct. intros Hf. apply find_some in Hf as [Hin Heq].
  split; [done|]. by apply Z.eqb_eq.
Qed.

Lemma findProduct_None catalog id :
  findProduct catalog id = None <->
  forall p, In p catalog -> Product.id p <> id.
Proof.
  unfold findProduct. split.
  - intros Hf p Hin Heq. apply (find_none _ _ Hf) in Hin.
    apply Z.eqb_neq in Hin. done.
  - intros Hno. destruct (find _ catalog) as [p|] eqn:Hf; [|done].
    apply find_some in Hf as [Hin Heq%Z.eqb_eq]. by destruct (Hno p Hin).
Qed.

Lemma payload_cons catalog id selected :
  getSelectedProductsPayload catalog (id :: selected)
  = match payloadEntry catalog id with
    | Some e => e :: getSelectedProductsPayload catalog selected
    | None => getSelectedProductsPayload catalog selected
    end.
Proof.
  unfold getSelectedProductsPayload. simpl.
  by destruct (payloadEntry catalog id).
Qed.

(** A selection that is not empty and names catalog products only has a
    payload. *)
Lemma payload_nonempty catalog selected :
  selected <> [] ->
  Forall (fun id => exists p, In p catalog /\ Product.id p = id) selected ->
  getSelectedProductsPayload catalog selected <> [].
Proof.
  destruct selected as [|id rest]; [done|]. intros _ Hall.
  apply Forall_cons in Hall as [(p & Hin & Hid) _].
  rewrite payload_cons. unfold payloadEntry.
  destruct (findProduct catalog id) eqn:Hf; [done|].
  rewrite findProduct_None in Hf. by destruct (Hf p Hin).
Qed.

(** C5. With no key configured and a selection that is not empty (every
    member being a catalog product, as the selection invariant says),
    [generateRoutine] ends at once on the key-missing notice: no request is
    sent, and neither the conversation nor the hidden log gains a
    message. *)
Theorem generateRoutine_without_key (w : World) :
  getApiKey w = None ->
  selectedProductIds w <> [] ->
  Forall (fun id => exists p, In p (allProducts w) /\ Product.id p = id)
    (selectedProductIds w) ->
  exists w',
    generateRoutine w = Done w'
    /\ chatWindow w' = apiKeyNotSet
    /\ conversationMessages w' = conversationMessages w
    /\ hiddenApiMessages w' = hiddenApiMessages w
    /\ selectedProductIds w' = selectedProductIds w.
Proof.
  intros K Hne Hall.
  pose proof (payload_nonempty _ _ Hne Hall) as Hpay.
  destruct (generateRoutine_cases w)
    as [[E _]|[(_ & _ & ->)|(_ & apiKey & K' & _)]].
  - done.
  - by eexists.
  - congruence.
Qed.

(** C10. When the payload is empty, [generateRoutine] ends at once on the
    notice that asks for a product, whether a key is configured or not: no
    request is sent, and the conversation, the hidden log and the
    selection are as before. *)
Theorem generateRoutine_empty_payload (w : World) :
  getSelectedProductsPayload (allProducts w) (selectedProductIds w) = [] ->
  exists w',
    generateRoutine w = Done w'
    /\ chatWindow w' = selectAtLeastOne
    /\ conversationMessages w' = conversationMessages w
    /\ hiddenApiMessages w' = hiddenApiMessages w
    /\ selectedProductIds w' = selectedProductIds w
    /\ allProducts w' = allProducts w.
Proof.
  intros E.
  destruct (generateRoutine_cases w)
    as [[_ ->]|[(E' & _)|(E' & _)]]; [by eexists | done | done].
Qed.

End Handlers.

(** ** The submit listener *)

Section Submit.
Context `{Host}.

Lemma falsy_false (s : jsstring) : falsy s = false <-> s <> [].
Proof. by destruct s. Qed.

Lemma arraySet_inside {A} (i : nat) (v : A) (l : list (option A)) :
  (i < length l)%nat -> arraySet i v l = <[i := Some v]> l.
Proof.
  intros Hi. unfold arraySet.
  by replace (i <? length l)%nat with true by (symmetry; apply Nat.ltb_lt; lia).
Qed.

(** C9. A question that is not empty, with a key configured, and that the
    validator rejects is not appended: the conversation gains the fixed
    refusal of the assistant and nothing else, the hidden log is as
    before, and the listener ends without sending a request. *)
Theorem chatSubmit_rejected (w : World) (apiKey : jsstring) :
  trim (userInput w) <> [] ->
  getApiKey w = Some apiKey ->
  isAllowedQuestion (allProducts w) (trim (userInput w)) = false ->
  exists w',
    chatSubmit w = Done w'
    /\ conversationMessages w' = conversationMessages w ++ [Some refusal]
    /\ hiddenApiMessages w' = hiddenApiMessages w
    /\ selectedProductIds w' = selectedProductIds w.
Proof.
  intros Htext K Hno. unfold chatSubmit.
  apply falsy_false in Htext. rewrite Htext, K, Hno. simpl.
  eexists. split; [reflexivity|]. simpl.
  by rewrite renderChatWindow_conversation, renderChatWindow_hidden,
    renderChatWindow_selected.
Qed.

(** The state in which the listener suspends: the question and the
    transient message have been appended. *)
Lemma chatSubmit_accepted (w : World) (apiKey : jsstring) :
  trim (userInput w) <> [] ->
  getApiKey w = Some apiKey ->
  isAllowedQuestion (allProducts w) (trim (userInput w)) = true ->
  exists w3,
    chatSubmit w =
      Await w3
        {| authorization := lit "Bearer " ++ apiKey;
           messages := assembleRequest w3 |}
        (fun r w' =>
           chatSubmit_settle (S (length (conversationMessages w)))
             (requireContent (readReply r)) w')
    /\ conversationMessages w3
       = conversationMessages w
         ++ [Some {| role := user; content := trim (userInput w) |};
             Some thinking]
    /\ hiddenApiMessages w3 = hiddenApiMessages w.
Proof.
  intros Htext K Hyes. unfold chatSubmit.
  apply falsy_false in Htext. rewrite Htext, K, Hyes. simpl.
  unfold awaitReply.
  set (w1 := renderChatWindow
               (pushVisible
                  {| role := user; content := trim (userInput w) |} w)).
  set (w3 := renderChatWindow (pushVisible thinking (setUserInput [] w1))).
  assert (getApiKey w3 = Some apiKey) as ->.
  { unfold w3. rewrite renderChatWindow_key.
    change (getApiKey w1 = Some apiKey).
    unfold w1. by rewrite renderChatWindow_key. }
  assert (conversationMessages w1
          = conversationMessages w
            ++ [Some {| role := user; content := trim (userInput w) |}])
    as Hc1 by (unfold w1; by rewrite renderChatWindow_conversation).
  exists w3. split; [|split].
  - f_equal. rewrite Hc1, !length_app. simpl.
    replace (length (conversationMessages w) + 1 + 1 - 1)%nat
      with (S (length (conversationMessages w))) by lia.
    reflexivity.
  - unfold w3. rewrite renderChatWindow_conversation. simpl.
    by rewrite Hc1, <- app_assoc.
  - unfold w3. rewrite renderChatWindow_hidden. simpl.
    unfold w1. by rewrite renderChatWindow_hidden.
Qed.

Lemma chatSubmit_settle_conversation i r w :
  conversationMessages (chatSubmit_settle i (requireContent (readReply r)) w)
  = arraySet i {| role := assistant; content := finalContent r |}
      (conversationMessages w).
Proof.
  unfold chatSubmit_settle, finalContent.
  destruct (requireContent (readReply r));
    by rewrite renderChatWindow_conversation.
Qed.

Lemma finalContent_spec r :
  finalContent r
  = match replyText r with
    | Some c => c
    | None => lit "Error responding: " ++ errorText r
    end.
Proof.
  unfold finalContent. destruct r as [m|status text|[c|]]; simpl; try done.
  by destruct c.
Qed.

(** C7, as the code has it. A question that passes the validator suspends
    the listener with the transient message in the slot after the
    question. Whatever the endpoint answers, and whatever was appended in
    between, the listener then overwrites that one slot with an assistant
    message: it holds the reply when the reply is not empty, and otherwise
    "Error responding: " followed by the message of the error. The length
    of the conversation, every other slot and the hidden log are as
    found. The slot then differs from the transient message, except when
    the reply is itself the three dots. *)
Theorem chatSubmit_replaces_placeholder (w : World) (apiKey : jsstring) :
  trim (userInput w) <> [] ->
  getApiKey w = Some apiKey ->
  isAllowedQuestion (allProducts w) (trim (userInput w)) = true ->
  exists w3 request resume,
    chatSubmit w = Await w3 request resume
    /\ conversationMessages w3 !! S (length (conversationMessages w))
       = Some (Some thinking)
    /\ length (conversationMessages w3)
       = S (S (length (conversationMessages w)))
    /\ forall (r : Response) (w' : World),
         (S (length (conversationMessages w))
          < length (conversationMessages w'))%nat ->
         conversationMessages (resume r w')
           !! S (length (conversationMessages w))
         = Some
             (Some
                {| role := assistant;
                   content :=
                     match replyText r with
                     | Some c => c
                     | None => lit "Error responding: " ++ errorText r
                     end |})
         /\ length (conversationMessages (resume r w'))
            = length (conversationMessages w')
         /\ (forall j, j <> S (length (conversationMessages w)) ->
               conversationMessages (resume r w') !! j
               = conversationMessages w' !! j)
         /\ hiddenApiMessages (resume r w') = hiddenApiMessages w'
         /\ (replyText r <> Some (lit "...") ->
             conversationMessages (resume r w')
               !! S (length (conversationMessages w))
             <> Some (Some thinking)).
Proof.
  intros Htext K Hyes.
  destruct (chatSubmit_accepted w apiKey Htext K Hyes) as (w3 & -> & Hc & Hh).
  eexists _, _, _. split; [reflexivity|]. rewrite Hc. split; [|split].
  - rewrite lookup_app_r by lia.
    by replace (S (length (conversationMessages w))
                - length (conversationMessages w))%nat with 1%nat by lia.
  - rewrite length_app. simpl. lia.
  - intros r w' Hi. rewrite chatSubmit_settle_conversation.
    rewrite (arraySet_inside _ _ _ Hi), finalContent_spec.
    rewrite list_lookup_insert_eq by done.
    split; [done|]. split; [apply length_insert|].
    split; [intros j Hj; by apply list_lookup_insert_ne|]. split.
    + unfold chatSubmit_settle.
      destruct (requireContent (readReply r));
        by rewrite renderChatWindow_hidden.
    + intros Hdots. destruct (replyText r) as [c|].
      * intros [= ->]. by apply Hdots.
      * intros E. discriminate E.
Qed.

End Submit.

(** ** The payload *)

Lemma noWhiteSpace_singleSpaced s :
  noWhiteSpace s = true -> singleSpaced s = true.
Proof.
  induction s as [|c r IH]; simpl; [done|].
  intros [Hc Hr]%andb_true_iff. apply negb_true_iff in Hc.
  by rewrite Hc, (IH Hr).
Qed.

Lemma noWhiteSpace_trimEnd s : noWhiteSpace s = true -> trimEnd s = s.
Proof.
  induction s as [|c r IH]; simpl; [done|].
  intros [Hc Hr]%andb_true_iff. apply negb_true_iff in Hc.
  rewrite (IH Hr), Hc. by destruct r.
Qed.

Lemma noWhiteSpace_trim s : noWhiteSpace s = true -> trim s = s.
Proof.
  intros Hs. unfold trim. rewrite trimStart_fixed.
  - by apply noWhiteSpace_trimEnd.
  - destruct s as [|c r]; simpl in *; [done|].
    apply andb_true_iff in Hs as [Hc _]. by apply negb_true_iff.
Qed.

Lemma noWhiteSpace_take n s :
  noWhiteSpace s = true -> noWhiteSpace (take n s) = true.
Proof.
  revert n. induction s as [|c r IH]; intros [|n]; simpl; try done.
  intros [Hc Hr]%andb_true_iff. by rewrite Hc, (IH n Hr).
Qed.

(** A text without white space that is longer than the limit is cut to
    exactly [maxLen] units, followed by the ellipsis. *)
Lemma sanitizeText_cut d maxLen :
  (0 <= maxLen)%Z -> noWhiteSpace d = true ->
  (maxLen < Z.of_nat (length d))%Z ->
  sanitizeText d maxLen = take (Z.to_nat maxLen) d ++ [ELLIPSIS].
Proof.
  intros Hn Hd Hlong.
  assert (tidy d) as Ht
    by (split; [by apply noWhiteSpace_singleSpaced | by apply noWhiteSpace_trim]).
  rewrite (sanitizeText_on_tidy _ _ Hn Ht).
  replace (Z.of_nat (length d) >? maxLen)%Z with true
    by (symmetry; apply Z.gtb_lt; lia).
  rewrite slice_prefix by done.
  by rewrite noWhiteSpace_trim by (by apply noWhiteSpace_take).
Qed.

Lemma sanitizeText_length text maxLen :
  (0 <= maxLen)%Z ->
  (Z.of_nat (length (sanitizeText text maxLen)) <= maxLen + 1)%Z.
Proof.
  intros Hn. unfold sanitizeText. destruct (falsy text); [simpl; lia|]. simpl.
  destruct (Z.of_nat (length (trim (collapse text))) >? maxLen)%Z eqn:Hcut.
  - rewrite slice_prefix, length_app by done. simpl.
    pose proof (length_trim (take (Z.to_nat maxLen) (trim (collapse text))))
      as Hle.
    rewrite length_take in Hle. lia.
  - rewrite Z.gtb_ltb in Hcut. apply Z.ltb_ge in Hcut. lia.
Qed.

Lemma payload_map catalog selected :
  getSelectedProductsPayload catalog selected
  = map projection (omap (findProduct catalog) selected).
Proof.
  induction selected as [|id rest IH]; [done|].
  rewrite payload_cons, IH. unfold payloadEntry. simpl.
  by destruct (findProduct catalog id).
Qed.

Lemma tidy_startsWhite s : tidy s -> startsWhite s = false.
Proof. intros [_ Ht]. rewrite <- Ht. apply trim_startsWhite. Qed.

Lemma trimEnd_snoc_white s c :
  isWhiteSpace c = true -> trimEnd (s ++ [c]) = trimEnd s.
Proof.
  intros Hc. induction s as [|x r IH]; simpl; [by rewrite Hc|].
  by rewrite IH.
Qed.

(** A cut that ends on a unit that is not white space is left alone by
    [trim]. *)
Lemma trim_take_solid s n c :
  tidy s -> s !! n = Some c -> isWhiteSpace c = false ->
  trim (take (S n) s) = take (S n) s.
Proof.
  intros Hs Hn Hc. unfold trim. rewrite trimStart_fixed.
  - rewrite (take_S_r _ _ _ Hn). by apply trimEnd_snoc.
  - destruct (startsWhite (take (S n) s)) eqn:E; [|done].
    apply startsWhite_take in E. by rewrite (tidy_startsWhite _ Hs) in E.
Qed.

(** In a tidy string the unit before a white-space unit is not white
    space. *)
Lemma tidy_before_space s n a c :
  tidy s -> s !! n = Some a -> s !! S n = Some c ->
  isWhiteSpace c = true -> isWhiteSpace a = false.
Proof.
  intros [Hs _]. revert n. induction s as [|x r IH]; intros n Ha Hc Hw; [done|].
  destruct n as [|n].
  - simpl in Ha, Hc. injection Ha as ->. destruct r as [|y r]; [done|].
    simpl in Hc. injection Hc as ->. simpl in Hs.
    destruct (isWhiteSpace a); [|done]. rewrite Hw in Hs.
    by rewrite andb_false_r in Hs.
  - apply (IH (singleSpaced_tail _ _ Hs) n); done.
Qed.

(** A cut that ends on a space loses that space, and only it. *)
Lemma trim_take_space s n a c :
  tidy s -> s !! n = Some a -> s !! S n = Some c -> isWhiteSpace c = true ->
  trim (take (S (S n)) s) = take (S n) s.
Proof.
  intros Hs Ha Hc Hw.
  pose proof (tidy_before_space _ _ _ _ Hs Ha Hc Hw) as Hsolid.
  etransitivity; [|exact (trim_take_solid s n a Hs Ha Hsolid)].
  unfold trim. rewrite (take_S_r _ _ _ Hc).
  assert (startsWhite (take (S n) s) = false) as Hhead.
  { destruct (startsWhite (take (S n) s)) eqn:E; [|done].
    apply startsWhite_take in E. by rewrite (tidy_startsWhite _ Hs) in E. }
  rewrite !trimStart_fixed; [by apply trimEnd_snoc_white | done |].
  rewrite (take_S_r _ _ _ Ha) in Hhead |- *.
  by destruct (take n s).
Qed.

(** The description sent for a record, from the collapsed and trimmed text
    [s] of its description. *)
Lemma projection_description (p : Product.t) :
  Entry.description (projection p)
  = if (300 <? length (trim (collapse (orEmpty (Product.description p)))))%nat
    then trim (take 300
                 (trim (collapse (orEmpty (Product.description p)))))
         ++ [ELLIPSIS]
    else trim (collapse (orEmpty (Product.description p))).
Proof.
  simpl. unfold sanitizeText.
  destruct (orEmpty (Product.description p)) as [|c d] eqn:E; [done|].
  simpl falsy. cbv iota zeta.
  destruct (Nat.ltb_spec 300 (length (trim (collapse (c :: d))))) as [Hl|Hl].
  - replace (Z.of_nat (length (trim (collapse (c :: d)))) >? 300)%Z with true
      by (symmetry; apply Z.gtb_lt; lia).
    by rewrite slice_prefix by lia.
  - by replace (Z.of_nat (length (trim (collapse (c :: d)))) >? 300)%Z
      with false by (symmetry; rewrite Z.gtb_ltb; apply Z.ltb_ge; lia).
Qed.

(** C6, as the code has it. The payload has one entry for each selected
    identifier that the catalog holds, in the order of the selection, and
    none for an identifier it does not hold. An entry is made of the name,
    the brand, the category and the sanitized description of the record
    and of nothing else. The description has at most 301 units. With [s]
    the record's description once white space is collapsed and trimmed:
    when [s] has at most 300 units the description is [s], uncut; when
    [s] has more, the description is the first 300 units of [s] followed
    by the ellipsis, 301 units in all, unless the 300th unit of [s] is a
    space, in which case that space is dropped and the description has
    300 units. In particular a description with no white space and more
    than 300 units (the 500 letters of the fixture, say) gives its first
    300 units and the ellipsis. *)
Theorem payload_entries (catalog : list Product.t) (selected : list Z) :
  getSelectedProductsPayload catalog selected
  = map projection (omap (findProduct catalog) selected)
  /\ (forall id p,
        findProduct catalog id = Some p -> In p catalog /\ Product.id p = id)
  /\ (forall id,
        findProduct catalog id = None <->
        forall p, In p catalog -> Product.id p <> id)
  /\ (forall e,
        In e (getSelectedProductsPayload catalog selected) ->
        (length (Entry.description e) <= 301)%nat)
  /\ (forall p,
        (length (trim (collapse (orEmpty (Product.description p)))) <= 300)%nat ->
        Entry.description (projection p)
        = trim (collapse (orEmpty (Product.description p))))
  /\ (forall p c,
        (300 < length (trim (collapse (orEmpty (Product.description p)))))%nat ->
        trim (collapse (orEmpty (Product.description p))) !! 299%nat = Some c ->
        isWhiteSpace c = false ->
        Entry.description (projection p)
        = take 300 (trim (collapse (orEmpty (Product.description p))))
          ++ [ELLIPSIS]
        /\ length (Entry.description (projection p)) = 301%nat)
  /\ (forall p c,
        (300 < length (trim (collapse (orEmpty (Product.description p)))))%nat ->
        trim (collapse (orEmpty (Product.description p))) !! 299%nat = Some c ->
        isWhiteSpace c = true ->
        Entry.description (projection p)
        = take 299 (trim (collapse (orEmpty (Product.description p))))
          ++ [ELLIPSIS]
        /\ length (Entry.description (projection p)) = 300%nat)
  /\ (forall p d,
        Product.description p = Some d ->
        noWhiteSpace d = true ->
        (300 < length d)%nat ->
        Entry.description (projection p) = take 300 d ++ [ELLIPSIS]
        /\ length (Entry.description (projection p)) = 301%nat).
Proof.
  split; [apply payload_map|]. split; [apply findProduct_Some|].
  split; [apply findProduct_None|]. split; [|split; [|split; [|split]]].
  - intros e. rewrite payload_map. intros (p & <- & _)%in_map_iff. simpl.
    pose proof (sanitizeText_length (orEmpty (Product.description p)) 300
                  ltac:(lia)). lia.
  - intros p Hshort. rewrite projection_description.
    by replace (300 <? _)%nat with false
      by (symmetry; apply Nat.ltb_ge; lia).
  - intros p c Hlong Hc Hsolid. rewrite projection_description.
    replace (300 <? _)%nat with true by (symmetry; apply Nat.ltb_lt; lia).
    rewrite (trim_take_solid _ 299 c (tidy_normal _) Hc Hsolid).
    split; [done|]. rewrite length_app, length_take.
    change (length [ELLIPSIS]) with 1%nat. lia.
  - intros p c Hlong Hc Hspace. rewrite projection_description.
    replace (300 <? _)%nat with true by (symmetry; apply Nat.ltb_lt; lia).
    destruct (lookup_lt_is_Some_2
                (trim (collapse (orEmpty (Product.description p)))) 298
                ltac:(lia)) as [a Ha].
    rewrite (trim_take_space _ 298 a c (tidy_normal _) Ha Hc Hspace).
    split; [done|]. rewrite length_app, length_take.
    change (length [ELLIPSIS]) with 1%nat. lia.
  - intros p d Hd Hnw Hlong. simpl. rewrite Hd. simpl.
    rewrite (sanitizeText_cut d 300) by (done || lia).
    split; [done|]. rewrite length_app, length_take.
    change (length [ELLIPSIS]) with 1%nat.
    change (Z.to_nat 300) with 300%nat. lia.
Qed.

Lemma payload_entries_witness :
  exists e,
    getSelectedProductsPayload fixtureCatalog [1; 7]%Z = [e]
    /\ Entry.name e = lit "Hydra Serum"
    /\ Entry.description e = replicate 300 65 ++ [ELLIPSIS]
    /\ length (Entry.description e) = 301%nat.
Proof.
  destruct (payload_entries fixtureCatalog [1; 7]%Z)
    as (Hmap & _ & _ & _ & _ & _ & _ & Hcut).
  destruct (Hcut hydraSerum (replicate 500 65) eq_refl eq_refl
              ltac:(rewrite length_replicate; lia))
    as [Hd Hl].
  exists (projection hydraSerum). split; [exact Hmap|].
  split; [reflexivity|]. split; [exact Hd | exact Hl].
Defined.

(** A description of 500 units with one space at position 299: the cut
    leaves the space at the end, [trim] removes it, and the entry's
    description has 300 units, not 301. *)
Lemma payload_description_300 :
  length (orEmpty (Product.description spacedSerum)) = 500%nat
  /\ (exists e,
        getSelectedProductsPayload [spacedSerum] [2]%Z = [e]
        /\ Entry.description e = replicate 299 65 ++ [ELLIPSIS]
        /\ length (Entry.description e) = 300%nat
        /\ length (Entry.description e) <> 301%nat).
Proof.
  split; [reflexivity|]. eexists. split; [reflexivity|].
  split; [by vm_compute|]. split; [by vm_compute|]. by vm_compute.
Qed.

(** A text of 500 units that collapses to 201: nothing is cut. *)
Example sanitizeText_collapsed_below_limit :
  length (replicate 100 65 ++ replicate 300 SPACE ++ replicate 100 65)
  = 500%nat
  /\ sanitizeText
       (replicate 100 65 ++ replicate 300 SPACE ++ replicate 100 65) 300
     = replicate 100 65 ++ [SPACE] ++ replicate 100 65.
Proof. split; by vm_compute. Qed.

(** ** Restoring the selection *)

Section Restore.
Context `{Host}.

Lemma setAdd_In z s x : In x (setAdd z s) <-> x = z \/ In x s.
Proof.
  unfold setAdd. destruct (existsb (Z.eqb z) s) eqn:E.
  - split; [by right|]. intros [->|Hin]; [|done].
    apply existsb_exists in E as (y & Hy & Heq%Z.eqb_eq). by subst.
  - rewrite in_app_iff. simpl. split.
    + intros [?|[?|[]]]; [by right | by left].
    + intros [->|?]; [right; by left | by left].
Qed.

Lemma setAdd_NoDup z s : NoDup s -> NoDup (setAdd z s).
Proof.
  intros Hs. unfold setAdd. destruct (existsb (Z.eqb z) s) eqn:E; [done|].
  apply NoDup_app. split; [done|]. split; [|apply NoDup_singleton].
  intros x Hx ->%list_elem_of_singleton.
  apply list_elem_of_In in Hx.
  assert (existsb (Z.eqb z) s = true) as Habs
    by (apply existsb_exists; exists z; split; [done | apply Z.eqb_refl]).
  congruence.
Qed.

Lemma restoreId_In catalog selected raw x :
  In x (restoreId catalog selected raw) <->
  In x selected \/ kept catalog raw x.
Proof.
  unfold restoreId, kept. destruct (toNumber raw) as [numId|].
  - destruct (findProduct catalog numId) as [p|] eqn:Hf.
    + rewrite setAdd_In. apply findProduct_Some in Hf as [Hin Hid].
      split.
      * intros [->|?]; [right; eauto | by left].
      * intros [?|([= ->] & _)]; [by right | by left].
    + rewrite findProduct_None in Hf. split; [by left|].
      intros [?|([= ->] & p & Hin & Hid)]; [done|]. by destruct (Hf p Hin).
  - split; [by left|]. by intros [?|[? _]].
Qed.

Lemma restoreId_NoDup catalog selected raw :
  NoDup selected -> NoDup (restoreId catalog selected raw).
Proof.
  intros Hs. unfold restoreId. destruct (toNumber raw); [|done].
  destruct (findProduct catalog z); [by apply setAdd_NoDup | done].
Qed.

Lemma restore_all_In catalog arr selected x :
  In x (fold_left (restoreId catalog) arr selected) <->
  In x selected \/ exists raw, In raw arr /\ kept catalog raw x.
Proof.
  revert selected. induction arr as [|raw arr IH]; intros selected; simpl.
  - split; [by left|]. by intros [?|(? & [] & _)].
  - rewrite IH, restoreId_In. split.
    + intros [[?|?]|(raw' & ? & ?)]; eauto 6.
    + intros [?|(raw' & [<-|?] & ?)]; eauto 6.
Qed.

Lemma restore_all_NoDup catalog arr selected :
  NoDup selected -> NoDup (fold_left (restoreId catalog) arr selected).
Proof.
  revert selected. induction arr as [|raw arr IH]; intros selected Hs; simpl;
    [done|]. by apply IH, restoreId_NoDup.
Qed.

(** The [try] block either leaves the selection alone (by returning early
    or by throwing), or it has read an array and folded it in. *)
Lemma loadSelectedProducts_try_cases getItem catalog selected :
  (forall raw arr,
     getItem = Normal (Some raw) -> raw <> [] ->
     JSON_parse raw = Normal (JArray arr) ->
     loadSelectedProducts_try getItem catalog selected
     = Normal (fold_left (restoreId catalog) arr selected))
  /\ (loadSelectedProducts_try getItem catalog selected = Normal selected
      \/ (exists m, loadSelectedProducts_try getItem catalog selected = Throw m)
      \/ (exists arr,
            loadSelectedProducts_try getItem catalog selected
            = Normal (fold_left (restoreId catalog) arr selected))).
Proof.
  unfold loadSelectedProducts_try. split.
  - intros raw arr -> Hne%falsy_false ->. by rewrite Hne.
  - destruct getItem as [[raw|]|m]; [|by left | right; left; by eexists].
    destruct (falsy raw); [by left|].
    destruct (JSON_parse raw) as [[| | | |arr|]|m];
      first [ by left | right; left; by eexists | right; right; by eexists ].
Qed.


End Restore.


(** The restore example evaluated: of the six stored entries, the number 1
    and the string "1" name the record, once; the others are dropped. *)
Example loadSelectedProducts_fixture :
  @loadSelectedProducts fixtureHost (Normal (Some storedSelection))
    fixtureCatalog [] = Normal ([1%Z], [])
  /\ @loadSelectedProducts fixtureHost (Throw (lit "SecurityError"))
       fixtureCatalog [5%Z]
     = Normal ([5%Z], [lit "Could not load selected products:";
                       lit "SecurityError"])
  /\ @loadSelectedProducts fixtureHost (Normal (Some (lit "{not json")))
       fixtureCatalog []
     = Normal ([], [lit "Could not load selected products:";
                    lit "Unexpected token"]).
Proof. by vm_compute. Qed.

(** ** The topic validator *)

Lemma startsWith_spec k s :
  startsWith k s = true <-> exists after, s = k ++ after.
Proof.
  revert s. induction k as [|a k IH]; intros s; simpl.
  - split; [eauto|done].
  - destruct s as [|b s]; [split; [done | by intros [? ?]]|].
    rewrite andb_true_iff, N.eqb_eq, IH. split.
    + intros [-> [after ->]]. eauto.
    + intros [after [= -> ->]]. eauto.
Qed.

Lemma includes_spec s k : includes s k = true <-> occursIn k s.
Proof.
  unfold occursIn. induction s as [|c s IH]; simpl.
  - rewrite orb_false_r, startsWith_spec. split.
    + intros [after ->]. by exists [], after.
    + intros (before & after & E). symmetry in E.
      apply app_eq_nil in E as [-> E]. eauto.
  - rewrite orb_true_iff, startsWith_spec, IH. split.
    + intros [[after ->]|(before & after & ->)].
      * by exists [], after.
      * by exists (c :: before), after.
    + intros ([|c' before] & after & E).
      * left. eauto.
      * right. injection E as -> ->. eauto.
Qed.

Lemma trimEnd_nil s : trimEnd s = [] <-> forallb isWhiteSpace s = true.
Proof.
  induction s as [|c r IH]; simpl; [done|].
  rewrite andb_true_iff, <- IH.
  destruct (trimEnd r); destruct (isWhiteSpace c); split; try done;
    by intros [? ?].
Qed.

Lemma forallb_trimStart s :
  forallb isWhiteSpace (trimStart s) = forallb isWhiteSpace s.
Proof.
  induction s as [|c r IH]; simpl; [done|].
  destruct (isWhiteSpace c) eqn:Hc; simpl; [done|]. by rewrite Hc.
Qed.

(** [trim] leaves nothing exactly when every unit is white space. *)
Lemma falsy_trim text : falsy (trim text) = forallb isWhiteSpace text.
Proof.
  rewrite <- forallb_trimStart. unfold trim.
  destruct (forallb isWhiteSpace (trimStart text)) eqn:E.
  - apply trimEnd_nil in E. by rewrite E.
  - destruct (trimEnd (trimStart text)) eqn:E'; [|done].
    apply trimEnd_nil in E'. congruence.
Qed.

Section Validator.
Context `{Host}.

Lemma mentions_spec s p : mentions s p = true <-> Mentioned s p.
Proof.
  unfold mentions, Mentioned.
  rewrite orb_true_iff, !andb_true_iff, !negb_true_iff, !includes_spec.
  rewrite !falsy_false. reflexivity.
Qed.

Lemma isAllowedQuestion_blank catalog text :
  forallb isWhiteSpace text = true -> isAllowedQuestion catalog text = false.
Proof.
  intros Hb. unfold isAllowedQuestion.
  by rewrite falsy_trim, Hb, orb_true_r.
Qed.

Lemma isAllowedQuestion_unfold catalog text :
  forallb isWhiteSpace text = false ->
  isAllowedQuestion catalog text
  = existsb (fun k => includes (toLowerCase text) k) allowedKeywords
    || existsb (mentions (toLowerCase text)) catalog.
Proof.
  intros Hb. unfold isAllowedQuestion. rewrite falsy_trim, Hb.
  destruct text as [|c r]; [done|].
  change (falsy (c :: r) || false) with false. cbv iota.
  destruct (existsb (fun k => includes _ k) allowedKeywords); reflexivity.
Qed.

Lemma toLowerCase_lit (s : jsstring) :
  forallb (fun c => c <? 128) s = true -> toLowerCase s = map lowerAscii s.
Proof.
  intros Hs. apply toLowerCase_ascii. apply Forall_forall. intros c Hc.
  rewrite forallb_forall in Hs. apply N.ltb_lt, Hs. by apply list_elem_of_In.
Qed.

(** C3. The validator answers no on a text that is empty or made of white
    space only. On any other text it answers yes exactly when the
    lower-cased text contains a keyword of the list, or contains the
    lower-cased name or brand (when that is not empty) of a catalog
    record. The question about the serum is allowed with any catalog; the
    question about the stock market is refused whenever no record of the
    catalog is mentioned in it. *)
Theorem isAllowedQuestion_spec (catalog : list Product.t) (text : jsstring) :
  (forallb isWhiteSpace text = true ->
   isAllowedQuestion catalog text = false)
  /\ (forallb isWhiteSpace text = false ->
      (isAllowedQuestion catalog text = true <->
       (exists k, In k allowedKeywords /\ occursIn k (toLowerCase text))
       \/ (exists p, In p catalog /\ Mentioned (toLowerCase text) p)))
  /\ isAllowedQuestion catalog serumQuestion = true
  /\ ((forall p, In p catalog -> ~ Mentioned (toLowerCase stockQuestion) p) ->
      isAllowedQuestion catalog stockQuestion = false).
Proof.
  split; [apply isAllowedQuestion_blank|]. split; [|split].
  - intros Hb. rewrite (isAllowedQuestion_unfold _ _ Hb).
    rewrite orb_true_iff, !existsb_exists.
    split; (intros [(k & Hk & Hin)|(p & Hp & Hin)]; [left; exists k|right; exists p]);
      (split; [done|]);
      first [ by apply includes_spec | by apply mentions_spec ].
  - rewrite isAllowedQuestion_unfold by reflexivity.
    rewrite toLowerCase_lit by reflexivity.
    replace (existsb _ allowedKeywords) with true; [done|].
    by vm_compute.
  - intros Hno. rewrite isAllowedQuestion_unfold by reflexivity.
    apply orb_false_iff. split.
    + rewrite toLowerCase_lit by reflexivity. by vm_compute.
    + apply not_true_is_false. intros (p & Hp & Hm)%existsb_exists.
      apply mentions_spec in Hm. by apply (Hno p).
Qed.

End Validator.

Lemma isAllowedQuestion_spec_witness :
  @isAllowedQuestion fixtureHost fixtureCatalog (lit "   ") = false
  /\ @isAllowedQuestion fixtureHost fixtureCatalog stockQuestion = false.
Proof.
  split.
  - by apply (proj1 (@isAllowedQuestion_spec fixtureHost fixtureCatalog
                       (lit "   "))).
  - apply (proj2 (proj2 (proj2 (@isAllowedQuestion_spec fixtureHost
                                  fixtureCatalog stockQuestion)))).
    intros p [<-|[]] Hm%mentions_spec. by vm_compute in Hm.
Defined.

(** ** The handlers on the fixtures *)

(** A remote error and an empty reply both end [generateRoutine] in its
    [catch] block, and in both cases the hidden log, empty before the
    request, holds the payload afterwards. *)
Lemma generateRoutine_failure_keeps_payload :
  requireContent (readReply (NotOk 500 (lit "boom")))
  = Throw (lit "API error 500: boom")
  /\ requireContent (readReply (Ok None)) = Throw noReplyError
  /\ hiddenApiMessages (fixtureWorld (Some fixtureKey) [1%Z] []) = []
  /\ length
       (hiddenApiMessages
          (settle
             (@generateRoutine fixtureHost
                (fixtureWorld (Some fixtureKey) [1%Z] []))
             (NotOk 500 (lit "boom")))) = 1%nat
  /\ length
       (hiddenApiMessages
          (settle
             (@generateRoutine fixtureHost
                (fixtureWorld (Some fixtureKey) [1%Z] []))
             (Ok None))) = 1%nat.
Proof. repeat split; by vm_compute. Qed.

Lemma generateRoutine_without_key_witness :
  exists w',
    @generateRoutine fixtureHost (fixtureWorld None [1%Z] []) = Done w'
    /\ chatWindow w' = apiKeyNotSet
    /\ conversationMessages w' = [Some systemMessage]
    /\ hiddenApiMessages w' = []
    /\ selectedProductIds w' = [1%Z].
Proof.
  apply (@generateRoutine_without_key fixtureHost
           (fixtureWorld None [1%Z] [])).
  - reflexivity.
  - discriminate.
  - repeat constructor. exists hydraSerum. split; [by left | reflexivity].
Defined.

Lemma generateRoutine_empty_payload_witness :
  exists w',
    @generateRoutine fixtureHost (fixtureWorld (Some fixtureKey) [7%Z] [])
    = Done w'
    /\ chatWindow w' = selectAtLeastOne
    /\ conversationMessages w' = [Some systemMessage]
    /\ hiddenApiMessages w' = []
    /\ selectedProductIds w' = [7%Z]
    /\ allProducts w' = fixtureCatalog.
Proof.
  apply (@generateRoutine_empty_payload fixtureHost
           (fixtureWorld (Some fixtureKey) [7%Z] [])).
  reflexivity.
Defined.

Lemma chatSubmit_rejected_witness :
  exists w',
    @chatSubmit fixtureHost
      (fixtureWorld (Some fixtureKey) [1%Z] stockQuestion) = Done w'
    /\ conversationMessages w' = [Some systemMessage; Some refusal]
    /\ hiddenApiMessages w' = []
    /\ selectedProductIds w' = [1%Z].
Proof.
  apply (@chatSubmit_rejected fixtureHost
           (fixtureWorld (Some fixtureKey) [1%Z] stockQuestion) fixtureKey).
  - by vm_compute.
  - reflexivity.
  - by vm_compute.
Defined.

Lemma chatSubmit_replaces_placeholder_witness :
  exists w3 request resume,
    @chatSubmit fixtureHost
      (fixtureWorld (Some fixtureKey) [1%Z] serumQuestion)
    = Await w3 request resume
    /\ conversationMessages w3 !! 2%nat = Some (Some thinking)
    /\ conversationMessages (resume (NotOk 500 (lit "boom")) w3) !! 2%nat
       = Some (Some {| role := assistant;
                       content :=
                         lit "Error responding: API error 500: boom" |})
    /\ length (conversationMessages (resume (NotOk 500 (lit "boom")) w3))
       = length (conversationMessages w3).
Proof.
  destruct (@chatSubmit_replaces_placeholder fixtureHost
              (fixtureWorld (Some fixtureKey) [1%Z] serumQuestion) fixtureKey)
    as (w3 & request & resume & E & Hslot & Hlen & Hresume).
  - by vm_compute.
  - reflexivity.
  - by vm_compute.
  - exists w3, request, resume. split; [exact E|]. split; [exact Hslot|].
    destruct (Hresume (NotOk 500 (lit "boom")) w3) as (Hfinal & Hsame & _).
    + rewrite Hlen. simpl. lia.
    + split; [exact Hfinal | exact Hsame].
Defined.

(** A reply that is itself three dots: the slot is overwritten, and holds
    again a message equal to the transient one. *)
Lemma chatSubmit_reply_of_dots :
  exists w3 request resume,
    @chatSubmit fixtureHost
      (fixtureWorld (Some fixtureKey) [1%Z] serumQuestion)
    = Await w3 request resume
    /\ conversationMessages w3 !! 2%nat = Some (Some thinking)
    /\ replyText (Ok (Some (lit "..."))) = Some (lit "...")
    /\ conversationMessages (resume (Ok (Some (lit "..."))) w3) !! 2%nat
       = Some (Some thinking).
Proof.
  eexists _, _, _. split; [reflexivity|]. repeat split; by vm_compute.
Qed.

(** * Further properties *)

(** ** The selection controls *)

Lemma setHas_In z s : setHas z s = true <-> In z s.
Proof.
  unfold setHas. rewrite existsb_exists. split.
  - by intros (x & Hx & ->%Z.eqb_eq).
  - intros Hz. exists z. split; [done | apply Z.eqb_refl].
Qed.

Lemma setDelete_In z s x : In x (setDelete z s) <-> In x s /\ x <> z.
Proof.
  unfold setDelete. rewrite filter_In, negb_true_iff, Z.eqb_neq. reflexivity.
Qed.

Lemma setDelete_NoDup z s : NoDup s -> NoDup (setDelete z s).
Proof.
  intros Hs. apply NoDup_ListNoDup. apply List.NoDup_filter.
  by apply NoDup_ListNoDup.
Qed.

Lemma setDelete_absent z s : setHas z s = false -> setDelete z s = s.
Proof.
  unfold setHas, setDelete. induction s as [|x s IH]; simpl; [done|].
  intros [Hx Hs]%orb_false_iff. rewrite (IH Hs).
  rewrite Z.eqb_sym, Hx. reflexivity.
Qed.

Section Controls.
Context `{NumberText}.

Lemma saveSelectedProducts_world p : world (saveSelectedProducts p) = world p.
Proof. unfold saveSelectedProducts. by destruct (setItem _ _). Qed.

Lemma displayProducts_world products p :
  world (displayProducts products p) = world p.
Proof. by destruct products. Qed.

Lemma updateSelectedProductsList_world p :
  world (updateSelectedProductsList p) = world p.
Proof.
  unfold updateSelectedProductsList. by destruct (selectedProductIds _).
Qed.

Lemma persistAndRefresh_world p : world (persistAndRefresh p) = world p.
Proof.
  unfold persistAndRefresh.
  by rewrite updateSelectedProductsList_world, displayProducts_world,
    saveSelectedProducts_world.
Qed.

Lemma toggleProductSelection_selected productId p :
  selectedProductIds (world (toggleProductSelection productId p))
  = toggled productId (selectedProductIds (world p)).
Proof. unfold toggleProductSelection. by rewrite persistAndRefresh_world. Qed.

Lemma setHas_toggled productId ids x :
  setHas x (toggled productId ids)
  = if (x =? productId)%Z then negb (setHas productId ids) else setHas x ids.
Proof.
  apply eq_true_iff_eq. unfold toggled.
  destruct (setHas productId ids) eqn:Hhas.
  - rewrite setHas_In, setDelete_In.
    destruct (Z.eqb_spec x productId) as [->|Hne]; simpl.
    + split; [by intros [_ ?] | done].
    + rewrite setHas_In. split; [by intros [? _] | done].
  - rewrite setHas_In, setAdd_In.
    destruct (Z.eqb_spec x productId) as [->|Hne]; simpl.
    + split; [done | by left].
    + rewrite setHas_In. split; [by intros [?|?] | by right].
Qed.

(** X1. A click on a product card flips the membership of that product
    in the selection and of no other; the catalog and the conversation are
    untouched, and a selection without repetition stays so. This holds
    whether or not the write to storage succeeds. *)
Theorem toggleProductSelection_flips (productId : Z) (p : Page) :
  (In productId
     (selectedProductIds (world (toggleProductSelection productId p)))
   <-> ~ In productId (selectedProductIds (world p)))
  /\ (forall x,
        x <> productId ->
        (In x (selectedProductIds (world (toggleProductSelection productId p)))
         <-> In x (selectedProductIds (world p))))
  /\ (NoDup (selectedProductIds (world p)) ->
      NoDup (selectedProductIds (world (toggleProductSelection productId p))))
  /\ allProducts (world (toggleProductSelection productId p))
     = allProducts (world p)
  /\ conversationMessages (world (toggleProductSelection productId p))
     = conversationMessages (world p)
  /\ hiddenApiMessages (world (toggleProductSelection productId p))
     = hiddenApiMessages (world p).
Proof.
  rewrite toggleProductSelection_selected.
  split; [|split; [|split; [|split; [|split]]]].
  - rewrite <- !setHas_In, setHas_toggled, Z.eqb_refl.
    destruct (setHas productId _); simpl; split; congruence.
  - intros x Hne. rewrite <- !setHas_In, setHas_toggled.
    by replace (x =? productId)%Z with false by (symmetry; by apply Z.eqb_neq).
  - intros Hnd. unfold toggled. destruct (setHas productId _).
    + by apply setDelete_NoDup.
    + by apply setAdd_NoDup.
  - unfold toggleProductSelection. by rewrite persistAndRefresh_world.
  - unfold toggleProductSelection. by rewrite persistAndRefresh_world.
  - unfold toggleProductSelection. by rewrite persistAndRefresh_world.
Qed.

Lemma toggleAll_setHas ids p x :
  setHas x (selectedProductIds (world (toggleAll ids p)))
  = xorb (setHas x (selectedProductIds (world p)))
      (Nat.odd (count_occ Z.eq_dec ids x)).
Proof.
  unfold toggleAll. revert p. induction ids as [|productId ids IH]; intros p.
  - simpl. by rewrite xorb_false_r.
  - simpl fold_left. rewrite IH, toggleProductSelection_selected, setHas_toggled.
    simpl count_occ. destruct (Z.eq_dec productId x) as [->|Hne].
    + rewrite Z.eqb_refl, Nat.odd_succ, <- Nat.negb_odd.
      by destruct (setHas x _), (Nat.odd _).
    + by replace (x =? productId)%Z with false
        by (symmetry; apply Z.eqb_neq; congruence).
Qed.

(** X2. After any run of clicks, a product is selected exactly when it
    was selected before and was clicked an even number of times, or was
    not selected before and was clicked an odd number of times. *)
Theorem toggleAll_parity (ids : list Z) (p : Page) (x : Z) :
  In x (selectedProductIds (world (toggleAll ids p)))
  <-> xorb (setHas x (selectedProductIds (world p)))
        (Nat.odd (count_occ Z.eq_dec ids x)) = true.
Proof. by rewrite <- setHas_In, toggleAll_setHas. Qed.

(** X3. The remove button of a chip: on a product that is not selected
    the page is left exactly as it was (nothing is saved or shown again);
    on a selected product that product leaves the selection, every other
    member stays in its place, and removing it a second time changes
    nothing more. *)
Theorem removeSelected_removes (productId : Z) (p : Page) :
  (~ In productId (selectedProductIds (world p)) ->
   removeSelected productId p = p)
  /\ selectedProductIds (world (removeSelected productId p))
     = setDelete productId (selectedProductIds (world p))
  /\ ~ In productId (selectedProductIds (world (removeSelected productId p)))
  /\ (forall x,
        x <> productId ->
        (In x (selectedProductIds (world (removeSelected productId p)))
         <-> In x (selectedProductIds (world p))))
  /\ removeSelected productId (removeSelected productId p)
     = removeSelected productId p.
Proof.
  assert (selectedProductIds (world (removeSelected productId p))
          = setDelete productId (selectedProductIds (world p))) as Hsel.
  { unfold removeSelected.
    destruct (setHas productId _) eqn:Hhas.
    - by rewrite persistAndRefresh_world.
    - by rewrite setDelete_absent. }
  assert (~ In productId
            (selectedProductIds (world (removeSelected productId p)))) as Hout.
  { rewrite Hsel, setDelete_In. by intros [_ ?]. }
  split; [|split; [done|split; [done|split]]].
  - intros Hno. unfold removeSelected.
    by replace (setHas productId _) with false
      by (symmetry; apply not_true_is_false; by rewrite setHas_In).
  - intros x Hne. rewrite Hsel, setDelete_In. split; [by intros [? _] | done].
  - unfold removeSelected at 1.
    by replace (setHas productId _) with false
      by (symmetry; apply not_true_is_false; by rewrite setHas_In).
Qed.

End Controls.

(** ** Saving and restoring *)

Section Persistence.
Context `{Host} `{NumberText}.

Lemma setAdd_present z s : In z s -> setAdd z s = s.
Proof.
  intros Hz. unfold setAdd.
  by replace (existsb (Z.eqb z) s) with true
    by (symmetry; by apply (setHas_In z s)).
Qed.

Lemma setAdd_fresh z s : ~ In z s -> setAdd z s = s ++ [z].
Proof.
  intros Hz. unfold setAdd.
  by replace (existsb (Z.eqb z) s) with false
    by (symmetry; apply not_true_is_false; by rewrite (setHas_In z s)).
Qed.

(** Restoring identifiers that were saved as numbers: those of the
    catalog are appended in their order. *)
Lemma restore_saved catalog ids acc :
  NoDup (acc ++ ids) ->
  fold_left (restoreId catalog)
    (map (fun z => JNumber (Integral z)) ids) acc
  = acc ++ List.filter (inCatalog catalog) ids.
Proof.
  revert acc. induction ids as [|z ids IH]; intros acc Hnd; simpl.
  - by rewrite app_nil_r.
  - assert (NoDup ((acc ++ [z]) ++ ids)) as Hnd'
      by (by rewrite <- app_assoc).
    assert (restoreId catalog acc (JNumber (Integral z))
            = if inCatalog catalog z then setAdd z acc else acc) as ->.
    { unfold restoreId, inCatalog. simpl.
      by destruct (findProduct catalog z). }
    destruct (inCatalog catalog z).
    + rewrite setAdd_fresh.
      * rewrite (IH _ Hnd'). by rewrite <- app_assoc.
      * apply NoDup_app in Hnd as (_ & Hdis & _). intros Hz.
        apply (Hdis z); [by apply list_elem_of_In | by left].
    + apply IH. apply NoDup_app in Hnd as (Ha & Hdis & Hi).
      apply NoDup_cons in Hi as [_ Hi]. apply NoDup_app.
      split; [done|]. split; [|done].
      intros x Hx Hx'. apply (Hdis x Hx). by right.
Qed.

(** X4. What is saved comes back. When the write succeeds and the host
    parses the text it wrote for the selection back to the same numbers,
    a page that starts on the same storage and loads [catalog] has, after
    [init], the saved members that [catalog] still holds, in their saved
    order: all of them when each is a catalog identifier. *)
Theorem saved_selection_restored (p : Page) (catalog : list Product.t)
  (key : option jsstring) (shown : ChatWindow) (chips : SelectedView)
  (category : jsstring) :
  NoDup (selectedProductIds (world p)) ->
  setItemError (localStorage p) = None ->
  getItemError (localStorage p) = None ->
  JSON_parse (JSON_stringify_numbers (selectedProductIds (world p)))
  = Normal
      (JArray
         (map (fun z => JNumber (Integral z)) (selectedProductIds (world p)))) ->
  selectedProductIds
    (world
       (init catalog
          (startPage key shown chips category
             (localStorage (saveSelectedProducts p)))))
  = List.filter (inCatalog catalog) (selectedProductIds (world p))
  /\ (Forall (fun z => inCatalog catalog z = true)
        (selectedProductIds (world p)) ->
      selectedProductIds
        (world
           (init catalog
              (startPage key shown chips category
                 (localStorage (saveSelectedProducts p)))))
      = selectedProductIds (world p)).
Proof.
  intros Hnd Hset Hget Hparse.
  assert (selectedProductIds
            (world
               (init catalog
                  (startPage key shown chips category
                     (localStorage (saveSelectedProducts p)))))
          = List.filter (inCatalog catalog) (selectedProductIds (world p)))
    as Hload.
  { unfold init. rewrite !updateSelectedProductsList_world.
    unfold loadSelected, saveSelectedProducts, setItem. rewrite Hset. simpl.
    unfold loadSelectedProducts, loadSelectedProducts_try, getItem. simpl.
    rewrite Hget.
    destruct (JSON_stringify_numbers_bracket (selectedProductIds (world p)))
      as [rest Hb].
    rewrite Hb in Hparse |- *. simpl falsy. cbv iota. rewrite Hparse.
    simpl. by rewrite restore_saved. }
  split; [exact Hload|]. intros Hall. rewrite Hload.
  clear -Hall. induction (selectedProductIds (world p)) as [|z ids IH];
    [done|]. apply Forall_cons in Hall as [Hz Hall].
  simpl. by rewrite Hz, IH.
Qed.

End Persistence.

Section Storage.
Context `{NumberText}.

Lemma persistAndRefresh_storage p :
  localStorage (persistAndRefresh p) = localStorage (saveSelectedProducts p)
  /\ console (persistAndRefresh p) = console (saveSelectedProducts p).
Proof.
  unfold persistAndRefresh. unfold updateSelectedProductsList.
  destruct (selectedProductIds _);
    by destruct (visibleProducts (saveSelectedProducts p)).
Qed.

(** X5. A failing write never blocks the selection. After a click, when
    [setItem] works the stored text is the JSON text of the new selection
    and nothing is logged; when [setItem] throws, the stored text is what
    it was, the error is logged once, and the selection in memory has
    changed all the same. *)
Theorem toggleProductSelection_storage (productId : Z) (p : Page) :
  match setItemError (localStorage p) with
  | None =>
      item (localStorage (toggleProductSelection productId p))
      = Some
          (JSON_stringify_numbers
             (toggled productId (selectedProductIds (world p))))
      /\ console (toggleProductSelection productId p) = console p
  | Some m =>
      localStorage (toggleProductSelection productId p) = localStorage p
      /\ console (toggleProductSelection productId p)
         = console p ++ [[lit "Could not save selected products:"; m]]
  end
  /\ selectedProductIds (world (toggleProductSelection productId p))
     = toggled productId (selectedProductIds (world p)).
Proof.
  split; [|apply toggleProductSelection_selected].
  unfold toggleProductSelection.
  destruct (persistAndRefresh_storage
              (setWorld
                 (setSelected
                    (if setHas productId (selectedProductIds (world p))
                     then setDelete productId (selectedProductIds (world p))
                     else setAdd productId (selectedProductIds (world p)))
                    (world p)) p)) as [-> ->].
  unfold saveSelectedProducts, setItem. simpl.
  by destruct (setItemError (localStorage p)).
Qed.

End Storage.

(** ** The views *)

Lemma chips_payload catalog ids :
  map projection (filterBoolean (map (findProduct catalog) ids))
  = getSelectedProductsPayload catalog ids.
Proof.
  induction ids as [|z ids IH]; [done|].
  rewrite payload_cons. unfold payloadEntry. simpl.
  destruct (findProduct catalog z); simpl; by rewrite IH.
Qed.

(** X6. The chips and the payload agree. Whenever the list of selected
    products is shown, the payload [generateRoutine] would send is made,
    entry by entry and in the same order, from the products of the chips;
    when the placeholder is shown instead, the payload is empty. *)
Theorem chips_match_payload (p : Page) :
  match selectedProductsList (updateSelectedProductsList p) with
  | selectedChips chips =>
      map projection chips
      = getSelectedProductsPayload (allProducts (world p))
          (selectedProductIds (world p))
  | selectedPlaceholder _ =>
      getSelectedProductsPayload (allProducts (world p))
        (selectedProductIds (world p)) = []
  end.
Proof.
  unfold updateSelectedProductsList.
  destruct (selectedProductIds (world p)) as [|z ids] eqn:E; [done|].
  cbv beta iota. exact (chips_payload (allProducts (world p)) (z :: ids)).
Qed.

Lemma cards_products (mark : Product.t -> bool) (products : list Product.t) :
  map fst (map (fun product => (product, mark product)) products) = products.
Proof. induction products as [|x l IH]; simpl; [done | by rewrite IH]. Qed.

Lemma cards_marks (mark mark' : Product.t -> bool) (keep : Product.t -> Prop)
  (products : list Product.t) :
  (forall product, keep product -> mark' product = mark product) ->
  Forall2 (fun card card' => keep (fst card) -> snd card' = snd card)
    (map (fun product => (product, mark product)) products)
    (map (fun product => (product, mark' product)) products).
Proof.
  intros Hk. induction products as [|x l IH]; simpl; constructor;
    [simpl; apply Hk | exact IH].
Qed.

Section Views.
Context `{NumberText}.

Lemma persistAndRefresh_views p :
  productsContainer (persistAndRefresh p)
  = productsContainer (displayProducts (visibleProducts p) p)
  /\ selectedProductsList (persistAndRefresh p)
     = selectedProductsList (updateSelectedProductsList p).
Proof.
  unfold persistAndRefresh.
  assert (visibleProducts (saveSelectedProducts p) = visibleProducts p) as ->.
  { unfold visibleProducts, saveSelectedProducts.
    by destruct (setItem _ _). }
  unfold updateSelectedProductsList, displayProducts.
  rewrite saveSelectedProducts_world.
  destruct (visibleProducts p); simpl; rewrite saveSelectedProducts_world;
    by destruct (selectedProductIds (world p)).
Qed.

Lemma toggleProductSelection_shown (productId : Z) (p : Page) :
  productsContainer (toggleProductSelection productId p)
  = match visibleProducts p with
    | [] => productsPlaceholder (lit "No products found for this category")
    | products =>
        productCards
          (map (fun product =>
                  (product,
                   setHas (Product.id product)
                     (selectedProductIds
                        (world (toggleProductSelection productId p)))))
             products)
    end
  /\ selectedProductsList (toggleProductSelection productId p)
     = match
         selectedProductIds (world (toggleProductSelection productId p))
       with
       | [] => selectedPlaceholder (lit "No products selected")
       | ids =>
           selectedChips
             (filterBoolean (map (findProduct (allProducts (world p))) ids))
       end.
Proof.
  rewrite toggleProductSelection_selected. unfold toggleProductSelection.
  fold (toggled productId (selectedProductIds (world p))).
  destruct (persistAndRefresh_views
              (setWorld
                 (setSelected
                    (toggled productId (selectedProductIds (world p)))
                    (world p)) p)) as [-> ->].
  split.
  - unfold displayProducts.
    change (visibleProducts (setWorld _ p)) with (visibleProducts p).
    by destruct (visibleProducts p).
  - unfold updateSelectedProductsList. simpl.
    by destruct (toggled productId (selectedProductIds (world p))).
Qed.

Lemma hasCategory_spec value product :
  hasCategory value product
  = bool_decide (Product.category product = Some value).
Proof.
  unfold hasCategory. destruct (Product.category product) as [c|]; [|done].
  apply bool_decide_ext. split; congruence.
Qed.

Lemma visibleProducts_onGrid p :
  visibleProducts p
  = List.filter (onGrid (categoryFilter_value p)) (allProducts (world p)).
Proof.
  unfold visibleProducts, onGrid. destruct (falsy (categoryFilter_value p)).
  - simpl. induction (allProducts (world p)) as [|x l IH]; simpl; [done|].
    by rewrite <- IH.
  - simpl. apply List.filter_ext. intros product. apply hasCategory_spec.
Qed.

Lemma chips_ids catalog ids :
  map Product.id (filterBoolean (map (findProduct catalog) ids))
  = List.filter (inCatalog catalog) ids
  /\ Forall (fun chip => findProduct catalog (Product.id chip) = Some chip)
       (filterBoolean (map (findProduct catalog) ids)).
Proof.
  induction ids as [|z ids [IH1 IH2]]; [by split|].
  simpl. unfold inCatalog at 1.
  destruct (findProduct catalog z) as [product|] eqn:Hf; [|by split].
  pose proof (findProduct_Some _ _ _ Hf) as [_ Hid]. simpl. split.
  - by rewrite Hid, IH1.
  - constructor; [by rewrite Hid | done].
Qed.

(** X7. After a click the grid and the chips show the new selection. The
    grid holds the catalog products that belong on it for the current
    value of the category select (every product when the value is empty,
    the products of that category otherwise), in catalog order, each card
    marked selected exactly when its product is in the selection after
    the click; when no product belongs on it, it holds the "No products
    found" notice. The chips are records the catalog finds by their own
    identifier, and their identifiers are the selected identifiers the
    catalog holds, in selection order; when nothing is selected the "No
    products selected" notice is shown instead. *)
Theorem toggleProductSelection_views (productId : Z) (p : Page) :
  match productsContainer (toggleProductSelection productId p) with
  | productsPlaceholder text =>
      List.filter (onGrid (categoryFilter_value p)) (allProducts (world p))
      = []
      /\ text = lit "No products found for this category"
  | productCards cards =>
      map fst cards
      = List.filter (onGrid (categoryFilter_value p)) (allProducts (world p))
      /\ cards <> []
      /\ Forall
           (fun card =>
              snd card = true <->
              In (Product.id (fst card))
                (selectedProductIds
                   (world (toggleProductSelection productId p))))
           cards
  end
  /\ match selectedProductsList (toggleProductSelection productId p) with
     | selectedPlaceholder text =>
         selectedProductIds (world (toggleProductSelection productId p)) = []
         /\ text = lit "No products selected"
     | selectedChips chips =>
         selectedProductIds (world (toggleProductSelection productId p)) <> []
         /\ map Product.id chips
            = List.filter (inCatalog (allProducts (world p)))
                (selectedProductIds
                   (world (toggleProductSelection productId p)))
         /\ Forall
              (fun chip =>
                 findProduct (allProducts (world p)) (Product.id chip)
                 = Some chip)
              chips
     end.
Proof.
  destruct (toggleProductSelection_shown productId p) as [-> ->].
  rewrite <- visibleProducts_onGrid. split.
  - destruct (visibleProducts p) as [|product products]; [done|].
    split; [by rewrite cards_products|]. split; [done|].
    apply Forall_forall. intros card Hcard%list_elem_of_In.
    apply in_map_iff in Hcard as (x & <- & _). simpl. apply setHas_In.
  - destruct (selectedProductIds (world (toggleProductSelection productId p)))
      as [|z ids]; [done|].
    split; [done|]. apply chips_ids.
Qed.

(** X8. Choosing a category and then clicking a card keeps the grid on
    that category: for a category name that is not empty, the cards after
    the click are those of the products the category listener showed, in
    the same order, and only the mark of the clicked product can differ. *)
Theorem categoryChange_then_toggle (category : jsstring) (productId : Z)
  (p : Page) :
  category <> [] ->
  forall cards,
    productsContainer (categoryChange category p) = productCards cards ->
    exists cards',
      productsContainer
        (toggleProductSelection productId (categoryChange category p))
      = productCards cards'
      /\ map fst cards' = map fst cards
      /\ map fst cards
         = List.filter (hasCategory category) (allProducts (world p))
      /\ Forall2
           (fun card card' =>
              Product.id (fst card) <> productId -> snd card' = snd card)
           cards cards'.
Proof.
  intros Hne cards Hcards.
  destruct (toggleProductSelection_shown productId (categoryChange category p))
    as [Hgrid _].
  assert (visibleProducts (categoryChange category p)
          = List.filter (hasCategory category) (allProducts (world p))) as Hvis.
  { unfold visibleProducts, categoryChange.
    rewrite displayProducts_world.
    assert (categoryFilter_value
              (displayProducts
                 (List.filter (hasCategory category)
                    (allProducts (world (setCategory category p))))
                 (setCategory category p)) = category) as ->
      by (by destruct (List.filter _ _)).
    apply falsy_false in Hne. by rewrite Hne. }
  rewrite Hvis in Hgrid. unfold categoryChange in Hcards.
  change (allProducts (world (setCategory category p)))
    with (allProducts (world p)) in Hcards.
  destruct (List.filter (hasCategory category) (allProducts (world p)))
    as [|product products] eqn:Hshown; [done|].
  injection Hcards as <-. eexists. split; [exact Hgrid|].
  split; [simpl; by rewrite !cards_products|].
  split; [simpl; by rewrite cards_products|].
  refine (cards_marks
            (fun x => setHas (Product.id x) (selectedProductIds (world p))) _
            (fun x => Product.id x <> productId) (product :: products) _).
  intros product' Hid.
  rewrite toggleProductSelection_selected, setHas_toggled.
  assert (selectedProductIds (world (categoryChange category p))
          = selectedProductIds (world p)) as ->
    by (unfold categoryChange; by rewrite displayProducts_world).
  by replace (Product.id product' =? productId)%Z with false
    by (symmetry; by apply Z.eqb_neq).
Qed.

End Views.

(** ** Restoring twice, and the payload of a selection *)

Section RestoreAgain.
Context `{Host}.

Lemma restoreId_prefix catalog selected raw :
  exists added, restoreId catalog selected raw = selected ++ added.
Proof.
  unfold restoreId. destruct (toNumber raw) as [z|];
    [|exists []; by rewrite app_nil_r].
  destruct (findProduct catalog z); [|exists []; by rewrite app_nil_r].
  unfold setAdd. destruct (existsb _ _);
    [exists []; by rewrite app_nil_r | by exists [z]].
Qed.

Lemma restore_all_prefix catalog arr selected :
  exists added,
    fold_left (restoreId catalog) arr selected = selected ++ added.
Proof.
  revert selected. induction arr as [|raw arr IH]; intros selected; simpl.
  - exists []. by rewrite app_nil_r.
  - destruct (restoreId_prefix catalog selected raw) as [a1 ->].
    destruct (IH (selected ++ a1)) as [a2 ->].
    exists (a1 ++ a2). by rewrite app_assoc.
Qed.

Lemma restoreId_known catalog selected raw :
  (forall z, kept catalog raw z -> In z selected) ->
  restoreId catalog selected raw = selected.
Proof.
  intros Hk. unfold restoreId. destruct (toNumber raw) as [z|] eqn:Hn; [|done].
  destruct (findProduct catalog z) as [p|] eqn:Hf; [|done].
  apply setAdd_present, Hk. split; [done|].
  apply findProduct_Some in Hf as [? ?]. eauto.
Qed.

Lemma restore_all_known catalog arr selected :
  (forall raw z, In raw arr -> kept catalog raw z -> In z selected) ->
  fold_left (restoreId catalog) arr selected = selected.
Proof.
  induction arr as [|raw arr IH]; intros Hk; simpl; [done|].
  rewrite restoreId_known by (intros z; apply Hk; by left).
  apply IH. intros raw' z Hin. apply Hk. by right.
Qed.

(** X9. Restoring is stable. [loadSelectedProducts] keeps the members
    that were selected before it, in their places, and adds after them;
    and running it again on its own result, with storage unchanged, adds
    nothing. *)
Theorem loadSelectedProducts_stable
  (stored : Completion (option jsstring)) (catalog : list Product.t)
  (selected : list Z) :
  exists selected' logged added,
    loadSelectedProducts stored catalog selected = Normal (selected', logged)
    /\ selected' = selected ++ added
    /\ loadSelectedProducts stored catalog selected'
       = Normal (selected', logged).
Proof.
  destruct (loadSelectedProducts_try_cases stored catalog selected)
    as [_ Hcases].
  unfold loadSelectedProducts. revert Hcases.
  unfold loadSelectedProducts_try.
  destruct stored as [[raw|]|m];
    [|intros _; exists selected, [], []; by rewrite app_nil_r
     |intros _; eexists selected, _, []; by rewrite app_nil_r].
  destruct (falsy raw);
    [intros _; exists selected, [], []; by rewrite app_nil_r|].
  destruct (JSON_parse raw) as [[| | | |arr|]|m]; intros _;
    try (exists selected, [], []; by rewrite app_nil_r);
    [|eexists selected, _, []; by rewrite app_nil_r].
  destruct (restore_all_prefix catalog arr selected) as [added Hadd].
  eexists _, _, added. split; [reflexivity|]. split; [exact Hadd|].
  rewrite restore_all_known; [done|].
  intros raw' z Hin Hk. apply restore_all_In. right. eauto.
Qed.

End RestoreAgain.

Lemma payload_nil catalog selected :
  getSelectedProductsPayload catalog selected = [] <->
  forall z, In z selected -> inCatalog catalog z = false.
Proof.
  induction selected as [|z ids IH]; [by split|].
  rewrite payload_cons. unfold payloadEntry, inCatalog in *.
  destruct (findProduct catalog z) eqn:Hf.
  - split; [done|]. intros Hall. specialize (Hall z (or_introl eq_refl)).
    by rewrite Hf in Hall.
  - rewrite IH. split.
    + intros Hall x [<-|Hx]; [by rewrite Hf | by apply Hall].
    + intros Hall x Hx. apply Hall. by right.
Qed.

Lemma payload_length catalog selected :
  length (getSelectedProductsPayload catalog selected)
  = length (List.filter (inCatalog catalog) selected).
Proof.
  induction selected as [|z ids IH]; [done|].
  rewrite payload_cons. unfold payloadEntry, inCatalog in *. simpl.
  destruct (findProduct catalog z); simpl; by rewrite IH.
Qed.

(** X10. The payload counts the selected products the catalog holds: it
    has as many entries as there are selected identifiers found in the
    catalog, never more than the selection has members, and it is empty
    exactly when no selected identifier is found, which is when
    [generateRoutine] asks for a product instead of calling the
    endpoint. *)
Theorem payload_counts_catalog_members `{Host} (w : World) :
  length (getSelectedProductsPayload (allProducts w) (selectedProductIds w))
  = length (List.filter (inCatalog (allProducts w)) (selectedProductIds w))
  /\ (length (getSelectedProductsPayload (allProducts w)
                (selectedProductIds w))
      <= length (selectedProductIds w))%nat
  /\ ((forall z, In z (selectedProductIds w) ->
                 inCatalog (allProducts w) z = false)
      <-> generateRoutine w = Done (setChatWindow selectAtLeastOne w)).
Proof.
  split; [apply payload_length|]. split.
  - rewrite payload_length. apply List.filter_length_le.
  - rewrite <- payload_nil.
    destruct (generateRoutine_cases w)
      as [[E ->]|[(E & K & ->)|(E & apiKey & K & ->)]]; split; done.
Qed.

(** ** The shape of sanitized text *)

Lemma singleSpaced_units s c :
  singleSpaced s = true -> In c s -> isWhiteSpace c = true -> c = SPACE.
Proof.
  induction s as [|x r IH]; [done|]. simpl.
  intros [Hx Hr]%andb_true_iff [<-|Hin] Hc; [|by apply IH].
  rewrite Hc in Hx. by apply andb_true_iff in Hx as [?%N.eqb_eq _].
Qed.

Lemma singleSpaced_pairs s before a b after :
  singleSpaced s = true -> s = before ++ a :: b :: after ->
  isWhiteSpace a = true -> isWhiteSpace b = false.
Proof.
  revert s. induction before as [|x before IH]; intros s Hs -> Ha.
  - simpl in Hs. rewrite Ha in Hs.
    apply andb_true_iff in Hs as [Hs _].
    by apply andb_true_iff in Hs as [_ ?%negb_true_iff].
  - apply (IH (before ++ a :: b :: after)); [|done|done].
    by apply singleSpaced_tail in Hs.
Qed.

Lemma replaceRuns_blank b s :
  forallb isWhiteSpace s = true ->
  forallb isWhiteSpace (replaceRuns b s) = true.
Proof.
  revert b. induction s as [|c r IH]; intros b; simpl; [done|].
  intros [Hc Hr]%andb_true_iff. rewrite Hc.
  destruct b; simpl; by rewrite IH.
Qed.

(** X11. What [sanitizeText] returns, for a limit that is a length. The
    only white space in it is the single space: never two in a row, none
    at either end, and no tab or line break at all. It has at most
    [maxLen] units when nothing was cut and [maxLen + 1] otherwise, and
    it is empty when the text is empty or white space only. *)
Theorem sanitizeText_shape (text : jsstring) (maxLen : Z) :
  (0 <= maxLen)%Z ->
  (forall c,
     In c (sanitizeText text maxLen) -> isWhiteSpace c = true -> c = SPACE)
  /\ (forall before a b after,
        sanitizeText text maxLen = before ++ a :: b :: after ->
        isWhiteSpace a = true -> isWhiteSpace b = false)
  /\ trim (sanitizeText text maxLen) = sanitizeText text maxLen
  /\ (Z.of_nat (length (sanitizeText text maxLen)) <= maxLen + 1)%Z
  /\ (forallb isWhiteSpace text = true -> sanitizeText text maxLen = []).
Proof.
  intros Hn. destruct (sanitizeText_tidy text maxLen Hn) as [Hs Ht].
  split; [intros c; by apply singleSpaced_units|].
  split; [intros before a b after; by apply singleSpaced_pairs|].
  split; [done|]. split; [by apply sanitizeText_length|].
  intros Hb. unfold sanitizeText. destruct (falsy text); [done|].
  assert (trim (collapse text) = []) as ->.
  { pose proof (falsy_trim (collapse text)) as Hf.
    unfold collapse in Hf |- *. rewrite (replaceRuns_blank _ _ Hb) in Hf.
    by destruct (trim (replaceRuns false text)). }
  cbv zeta. change (Z.of_nat (length (@nil N))) with 0%Z.
  by replace (0 >? maxLen)%Z with false
    by (symmetry; rewrite Z.gtb_ltb; by apply Z.ltb_ge).
Qed.

(** ** The validator and letter case *)

Lemma isWhiteSpace_letter c : 65 <= c <= 122 -> isWhiteSpace c = false.
Proof.
  intros Hc. unfold isWhiteSpace.
  replace (c <=? 13) with false by (symmetry; apply N.leb_gt; lia).
  replace (c <=? 8202) with true by (symmetry; apply N.leb_le; lia).
  replace (8192 <=? c) with false by (symmetry; apply N.leb_gt; lia).
  repeat match goal with
         | |- context [c =? ?k] =>
             replace (c =? k) with false by (symmetry; apply N.eqb_neq; lia)
         end.
  by rewrite andb_false_r.
Qed.

Lemma isWhiteSpace_lowerAscii c : isWhiteSpace (lowerAscii c) = isWhiteSpace c.
Proof.
  unfold lowerAscii. destruct ((65 <=? c) && (c <=? 90)) eqn:E; [|done].
  apply andb_true_iff in E as [?%N.leb_le ?%N.leb_le].
  rewrite !isWhiteSpace_letter; [done | lia | lia].
Qed.

Lemma forallb_isWhiteSpace_lower s :
  forallb isWhiteSpace (map lowerAscii s) = forallb isWhiteSpace s.
Proof.
  induction s as [|c r IH]; simpl; [done|].
  by rewrite isWhiteSpace_lowerAscii, IH.
Qed.

Section ValidatorCase.
Context `{Host}.

Lemma isAllowedQuestion_by_lower catalog text :
  Forall (fun c => c < 128) text ->
  isAllowedQuestion catalog text
  = if forallb isWhiteSpace (map lowerAscii text) then false
    else existsb (fun k => includes (map lowerAscii text) k) allowedKeywords
         || existsb (mentions (map lowerAscii text)) catalog.
Proof.
  intros Hascii. rewrite forallb_isWhiteSpace_lower.
  destruct (forallb isWhiteSpace text) eqn:Hb.
  - by apply isAllowedQuestion_blank.
  - rewrite (isAllowedQuestion_unfold _ _ Hb).
    by rewrite (toLowerCase_ascii _ Hascii).
Qed.

(** X12. The validator does not look at letter case: two texts of ASCII
    characters that differ only in the case of their letters get the same
    answer. *)
Theorem isAllowedQuestion_ignores_case (catalog : list Product.t)
  (text text' : jsstring) :
  Forall (fun c => c < 128) text ->
  Forall (fun c => c < 128) text' ->
  map lowerAscii text = map lowerAscii text' ->
  isAllowedQuestion catalog text = isAllowedQuestion catalog text'.
Proof.
  intros Ha Ha' Heq.
  by rewrite !isAllowedQuestion_by_lower, Heq by done.
Qed.

(** X13. A larger catalog never refuses more: a text allowed with a
    catalog is allowed with every catalog that holds the same records and
    others; in particular a text allowed with no catalog at all, by a
    keyword, is allowed with any. *)
Theorem isAllowedQuestion_monotone (catalog catalog' : list Product.t)
  (text : jsstring) :
  (forall p, In p catalog -> In p catalog') ->
  isAllowedQuestion catalog text = true ->
  isAllowedQuestion catalog' text = true.
Proof.
  intros Hincl. destruct (forallb isWhiteSpace text) eqn:Hb.
  - by rewrite isAllowedQuestion_blank.
  - rewrite !(isAllowedQuestion_unfold _ _ Hb), !orb_true_iff.
    intros [?|(p & Hp & Hm)%existsb_exists]; [by left|right].
    apply existsb_exists. exists p. split; [by apply Hincl | done].
Qed.

End ValidatorCase.

(** ** The conversation under the handlers *)

Lemma requireContent_readReply r :
  requireContent (readReply r)
  = match replyText r with
    | Some c => Normal c
    | None => Throw (errorText r)
    end.
Proof. destruct r as [m|status text|[c|]]; simpl; try done. by destruct c. Qed.

Lemma visibleMessages_full rest :
  Forall (fun m => isSystem (role m) = false) rest ->
  visibleMessages (map Some rest) = rest.
Proof.
  induction 1 as [|m rest Hm _ IH]; simpl; [done|]. by rewrite Hm, IH.
Qed.

Lemma WellFormed_visible conv rest :
  WellFormed conv rest -> visibleMessages conv = rest.
Proof. intros [-> Hr]. simpl. by apply visibleMessages_full. Qed.

Lemma WellFormed_push conv rest m :
  WellFormed conv rest -> isSystem (role m) = false ->
  WellFormed (conv ++ [Some m]) (rest ++ [m]).
Proof.
  intros [-> Hr] Hm. split.
  - simpl. by rewrite map_app.
  - apply Forall_app. split; [done|]. by apply Forall_singleton.
Qed.

Lemma map_Some_insert {A} (i : nat) (x : A) (l : list A) :
  <[i := Some x]> (map Some l) = map Some (<[i := x]> l).
Proof.
  revert i. induction l as [|y l IH]; intros [|i]; simpl; try done.
  by rewrite IH.
Qed.

Lemma WellFormed_assign conv rest i m :
  WellFormed conv rest -> isSystem (role m) = false ->
  (0 < i < length conv)%nat ->
  WellFormed (arraySet i m conv) (<[pred i := m]> rest).
Proof.
  intros [-> Hr] Hm [Hpos Hlt]. rewrite arraySet_inside by done.
  destruct i as [|i]; [lia|]. simpl. split.
  - by rewrite map_Some_insert.
  - by apply Forall_insert.
Qed.

Section Conversation.
Context `{Host}.

(** The four ways the submit listener goes. *)
Lemma chatSubmit_cases w :
  (forallb isWhiteSpace (userInput w) = true /\ chatSubmit w = Done w)
  \/ (forallb isWhiteSpace (userInput w) = false /\ getApiKey w = None
      /\ chatSubmit w = Done (setChatWindow apiKeyNotSet w))
  \/ (forallb isWhiteSpace (userInput w) = false
      /\ (exists apiKey, getApiKey w = Some apiKey)
      /\ isAllowedQuestion (allProducts w) (trim (userInput w)) = false
      /\ chatSubmit w
         = Done (setUserInput [] (renderChatWindow (pushVisible refusal w))))
  \/ (forallb isWhiteSpace (userInput w) = false
      /\ (exists apiKey, getApiKey w = Some apiKey)
      /\ isAllowedQuestion (allProducts w) (trim (userInput w)) = true).
Proof.
  unfold chatSubmit. rewrite falsy_trim.
  destruct (forallb isWhiteSpace (userInput w)); [by left|right].
  destruct (getApiKey w) as [apiKey|]; [right|by left].
  destruct (isAllowedQuestion _ _); [right|left]; eauto.
Qed.

Lemma trim_not_blank s : forallb isWhiteSpace s = false -> trim s <> [].
Proof. rewrite <- falsy_trim. by destruct (trim s). Qed.

(** X14. Both handlers keep the conversation in shape. When the
    conversation is the system message followed by messages that are not
    system messages, with no empty slot, it is still so after
    [generateRoutine] and after the submit listener: when they end at
    once, when they suspend, and when they resume on a conversation in
    that shape (for the listener, one that has not become shorter in
    between). *)
Theorem handlers_keep_conversation_shape (w : World) :
  wellFormed (conversationMessages w) ->
  match generateRoutine w with
  | Done w' => wellFormed (conversationMessages w')
  | Await w2 _ resume =>
      wellFormed (conversationMessages w2)
      /\ forall r w',
           wellFormed (conversationMessages w') ->
           wellFormed (conversationMessages (resume r w'))
  end
  /\ match chatSubmit w with
     | Done w' => wellFormed (conversationMessages w')
     | Await w3 _ resume =>
         wellFormed (conversationMessages w3)
         /\ forall r w',
              wellFormed (conversationMessages w') ->
              (length (conversationMessages w3)
               <= length (conversationMessages w'))%nat ->
              wellFormed (conversationMessages (resume r w'))
     end.
Proof.
  intros Hw. split.
  - destruct (generateRoutine_cases w)
      as [[E ->]|[(E & K & ->)|(E & apiKey & K & ->)]]; [done|done|].
    split; [done|]. intros r w' [rest Hrest].
    unfold generateRoutine_settle. destruct (requireContent (readReply r)).
    + simpl. rewrite renderChatWindow_conversation. eexists.
      by apply WellFormed_push.
    + by exists rest.
  - destruct (chatSubmit_cases w)
      as [[_ ->]|[(_ & _ & ->)|[(_ & _ & _ & ->)|(Hb & [apiKey K] & Hyes)]]];
      [done|done| |].
    + destruct Hw as [rest Hrest]. simpl.
      rewrite renderChatWindow_conversation. eexists.
      by apply WellFormed_push.
    + destruct (chatSubmit_accepted w apiKey (trim_not_blank _ Hb) K Hyes)
        as (w3 & -> & Hc & _).
      destruct Hw as [rest Hrest]. rewrite Hc. split.
      * exists ((rest ++ [{| role := user; content := trim (userInput w) |}])
                ++ [thinking]).
        replace (conversationMessages w
                 ++ [Some {| role := user; content := trim (userInput w) |};
                     Some thinking])
          with ((conversationMessages w
                 ++ [Some {| role := user; content := trim (userInput w) |}])
                ++ [Some thinking]) by (by rewrite <- app_assoc).
        by repeat apply WellFormed_push.
      * intros r w' [rest' Hrest'] Hlen. rewrite !length_app in Hlen.
        simpl in Hlen. unfold chatSubmit_settle.
        destruct (requireContent (readReply r));
          rewrite renderChatWindow_conversation; eexists;
          (apply WellFormed_assign; [done | done | lia]).
Qed.

End Conversation.

(** ** What the handlers send and what they show *)

Section Requests.
Context `{Host}.

Lemma getApiKey_Some w apiKey :
  getApiKey w = Some apiKey -> OPENAI_API_KEY w = Some apiKey /\ apiKey <> [].
Proof.
  unfold getApiKey. destruct (OPENAI_API_KEY w) as [k|]; [|done].
  destruct k; [done|]. by intros [= <-].
Qed.

Lemma assembleRequest_WellFormed w rest :
  WellFormed (conversationMessages w) rest ->
  assembleRequest w
  = Some systemMessage :: map Some (hiddenApiMessages w) ++ map Some rest.
Proof. intros [E _]. by apply assembleRequest_cons. Qed.

(** X15. The request of [generateRoutine]. When the payload is not empty
    and a key is set, one request is sent; it carries the configured key,
    which is not empty, after "Bearer ", and its messages are the system
    message, the hidden messages so far, the new payload message, and
    then every visible message, in that order. *)
Theorem generateRoutine_request (w : World) (apiKey : jsstring)
  (rest : list Message) :
  getSelectedProductsPayload (allProducts w) (selectedProductIds w) <> [] ->
  getApiKey w = Some apiKey ->
  WellFormed (conversationMessages w) rest ->
  exists w2 resume,
    generateRoutine w
    = Await w2
        {| authorization := lit "Bearer " ++ apiKey;
           messages :=
             Some systemMessage
             :: map Some
                  (hiddenApiMessages w
                   ++ [userPayload
                         (getSelectedProductsPayload (allProducts w)
                            (selectedProductIds w))])
             ++ map Some rest |}
        resume
    /\ OPENAI_API_KEY w = Some apiKey
    /\ apiKey <> [].
Proof.
  intros Hpay K Hrest.
  destruct (generateRoutine_cases w)
    as [[E _]|[(_ & K' & _)|(_ & apiKey' & K' & ->)]]; [done|congruence|].
  assert (apiKey' = apiKey) as -> by congruence.
  eexists _, _. split; [|by apply getApiKey_Some].
  f_equal. f_equal. by apply assembleRequest_WellFormed.
Qed.

(** The state in which the listener suspends, written out. *)
Lemma chatSubmit_suspended (w : World) (apiKey : jsstring) :
  forallb isWhiteSpace (userInput w) = false ->
  getApiKey w = Some apiKey ->
  isAllowedQuestion (allProducts w) (trim (userInput w)) = true ->
  exists resume,
    chatSubmit w
    = Await
        (renderChatWindow
           (pushVisible thinking
              (setUserInput []
                 (renderChatWindow
                    (pushVisible
                       {| role := user; content := trim (userInput w) |}
                       w)))))
        {| authorization := lit "Bearer " ++ apiKey;
           messages :=
             assembleRequest
               (renderChatWindow
                  (pushVisible thinking
                     (setUserInput []
                        (renderChatWindow
                           (pushVisible
                              {| role := user;
                                 content := trim (userInput w) |} w))))) |}
        resume.
Proof.
  intros Hb K Hyes. unfold chatSubmit.
  rewrite falsy_trim, Hb, K, Hyes. simpl. unfold awaitReply.
  set (w1 := renderChatWindow
               (pushVisible
                  {| role := user; content := trim (userInput w) |} w)).
  set (w3 := renderChatWindow (pushVisible thinking (setUserInput [] w1))).
  assert (getApiKey w3 = Some apiKey) as ->.
  { unfold w3. rewrite renderChatWindow_key.
    change (getApiKey w1 = Some apiKey).
    unfold w1. by rewrite renderChatWindow_key. }
  by eexists.
Qed.

Lemma renderChatWindow_input w : userInput (renderChatWindow w) = userInput w.
Proof. unfold renderChatWindow. by destruct (visibleMessages _). Qed.

Lemma renderChatWindow_shows w rest :
  WellFormed (conversationMessages w) rest -> rest <> [] ->
  chatWindow (renderChatWindow w) = chatMessages rest.
Proof.
  intros Hw Hne. unfold renderChatWindow.
  rewrite (WellFormed_visible _ _ Hw). by destruct rest.
Qed.

(** X16. The request of the submit listener. For a question that passes
    the validator, one request is sent with the configured key; its
    messages are the system message, every hidden payload message, the
    visible messages so far, the question as trimmed, and last the
    transient assistant message "...", which is part of what is sent.
    The input is cleared and the window shows the conversation with the
    question and the transient message. *)
Theorem chatSubmit_request (w : World) (apiKey : jsstring)
  (rest : list Message) :
  forallb isWhiteSpace (userInput w) = false ->
  getApiKey w = Some apiKey ->
  isAllowedQuestion (allProducts w) (trim (userInput w)) = true ->
  WellFormed (conversationMessages w) rest ->
  exists w3 resume,
    chatSubmit w
    = Await w3
        {| authorization := lit "Bearer " ++ apiKey;
           messages :=
             Some systemMessage
             :: map Some (hiddenApiMessages w)
             ++ map Some
                  (rest
                   ++ [{| role := user; content := trim (userInput w) |};
                       thinking]) |}
        resume
    /\ userInput w3 = []
    /\ chatWindow w3
       = chatMessages
           (rest
            ++ [{| role := user; content := trim (userInput w) |}; thinking]).
Proof.
  intros Hb K Hyes Hrest.
  destruct (chatSubmit_suspended w apiKey Hb K Hyes) as [resume E].
  set (w3 := renderChatWindow _) in E.
  assert (WellFormed (conversationMessages w3)
            (rest
             ++ [{| role := user; content := trim (userInput w) |}; thinking]))
    as Hw3.
  { unfold w3. rewrite renderChatWindow_conversation. simpl.
    rewrite renderChatWindow_conversation. simpl.
    destruct Hrest as [-> Hr]. split.
    - simpl. by rewrite <- app_assoc, map_app.
    - apply Forall_app. split; [done|]. by repeat constructor. }
  exists w3, resume. split; [|split].
  - rewrite E. f_equal. f_equal.
    rewrite (assembleRequest_WellFormed _ _ Hw3). f_equal. f_equal.
    unfold w3. rewrite renderChatWindow_hidden. simpl.
    by rewrite renderChatWindow_hidden.
  - unfold w3. by rewrite renderChatWindow_input.
  - unfold w3 in Hw3 |- *. apply renderChatWindow_shows.
    + by rewrite renderChatWindow_conversation in Hw3.
    + by destruct rest.
Qed.

(** X17. How [generateRoutine] ends once the endpoint has answered. The
    button is disabled while the request is pending and enabled again
    whatever the answer. A reply that is not empty is appended to the
    conversation as one assistant message and the window shows the
    conversation; a network error, a status that is not a success or an
    empty reply leaves the conversation as found and shows "Error
    generating routine: " followed by the message of the error. *)
Theorem generateRoutine_outcome (w : World) (apiKey : jsstring) :
  getSelectedProductsPayload (allProducts w) (selectedProductIds w) <> [] ->
  getApiKey w = Some apiKey ->
  exists w2 request resume,
    generateRoutine w = Await w2 request resume
    /\ generateRoutineBtn_disabled w2 = true
    /\ chatWindow w2 = generatingRoutine
    /\ conversationMessages w2 = conversationMessages w
    /\ forall r w',
         generateRoutineBtn_disabled (resume r w') = false
         /\ match replyText r with
            | Some c =>
                conversationMessages (resume r w')
                = conversationMessages w'
                  ++ [Some {| role := assistant; content := c |}]
                /\ chatWindow (resume r w')
                   = chatMessages
                       (visibleMessages (conversationMessages w')
                        ++ [{| role := assistant; content := c |}])
            | None =>
                conversationMessages (resume r w') = conversationMessages w'
                /\ chatWindow (resume r w')
                   = placeholderMessage
                       (lit "Error generating routine: " ++ errorText r)
            end.
Proof.
  intros Hpay K.
  destruct (generateRoutine_cases w)
    as [[E _]|[(_ & K' & _)|(_ & apiKey' & K' & ->)]]; [done|congruence|].
  eexists _, _, _. split; [reflexivity|]. split; [done|]. split; [done|].
  split; [done|]. intros r w'. rewrite requireContent_readReply.
  unfold generateRoutine_settle. split; [done|].
  destruct (replyText r) as [c|]; simpl; [|done].
  rewrite renderChatWindow_conversation. split; [done|].
  unfold renderChatWindow. simpl.
  assert (visibleMessages
            (conversationMessages w'
             ++ [Some {| role := assistant; content := c |}])
          = visibleMessages (conversationMessages w')
            ++ [{| role := assistant; content := c |}]) as ->.
  { induction (conversationMessages w') as [|[m|] l IH]; simpl; [done| |done].
    destruct (isSystem (role m)); by rewrite IH. }
  by destruct (visibleMessages (conversationMessages w')).
Qed.

(** X18. The early exits of the submit listener. On an input that is
    empty or white space only nothing at all changes. On any other input,
    when no key is set, only the window changes, to the key-missing
    notice: the conversation and the hidden log are as before, the input
    is not cleared, and no request is sent, whether or not the question
    would have passed the validator. *)
Theorem chatSubmit_early_exits (w : World) :
  (forallb isWhiteSpace (userInput w) = true -> chatSubmit w = Done w)
  /\ (forallb isWhiteSpace (userInput w) = false ->
      getApiKey w = None ->
      exists w',
        chatSubmit w = Done w'
        /\ chatWindow w' = apiKeyNotSet
        /\ conversationMessages w' = conversationMessages w
        /\ hiddenApiMessages w' = hiddenApiMessages w
        /\ userInput w' = userInput w).
Proof.
  destruct (chatSubmit_cases w)
    as [[Hb ->]|[(Hb & K & ->)|[(Hb & [k K] & _)|(Hb & [k K] & _)]]];
    split; try congruence; try done.
  intros _ _. by eexists.
Qed.

End Requests.

(** ** The further properties on the fixtures *)

Lemma toggleProductSelection_flips_witness :
  NoDup
    (selectedProductIds
       (world
          (@toggleProductSelection fixtureText 2
             (fixturePage [1%Z] (workingStorage None)))))
  /\ (In 1%Z
        (selectedProductIds
           (world
              (@toggleProductSelection fixtureText 2
                 (fixturePage [1%Z] (workingStorage None)))))
      <-> In 1%Z [1%Z]).
Proof.
  destruct (@toggleProductSelection_flips fixtureText 2
              (fixturePage [1%Z] (workingStorage None)))
    as (_ & Hother & Hnd & _).
  split.
  - apply Hnd. apply NoDup_singleton.
  - apply Hother. lia.
Defined.

Lemma removeSelected_removes_witness :
  @removeSelected fixtureText 7 (fixturePage [1%Z] (fullStorage None))
  = fixturePage [1%Z] (fullStorage None).
Proof.
  apply (proj1 (@removeSelected_removes fixtureText 7
                  (fixturePage [1%Z] (fullStorage None)))).
  simpl. intros [?|[]]. lia.
Defined.

Lemma saved_selection_restored_witness :
  selectedProductIds
    (world
       (@init fixturePageHost [hydraSerum; spacedSerum]
          (startPage None (placeholderMessage []) (selectedChips []) []
             (localStorage
                (@saveSelectedProducts fixtureText
                   (fixturePage [1%Z; 2%Z] (workingStorage None)))))))
  = [1%Z; 2%Z].
Proof.
  destruct (@saved_selection_restored fixturePageHost fixtureText
              (fixturePage [1%Z; 2%Z] (workingStorage None))
              [hydraSerum; spacedSerum] None (placeholderMessage [])
              (selectedChips []) [])
    as [_ Hall].
  - apply NoDup_ListNoDup. repeat constructor; simpl; intuition lia.
  - reflexivity.
  - reflexivity.
  - reflexivity.
  - apply Hall. by repeat constructor.
Defined.

Lemma categoryChange_then_toggle_witness :
  exists cards',
    productsContainer
      (@toggleProductSelection fixtureText 1
         (categoryChange (lit "skincare")
            (fixturePage [] (workingStorage None))))
    = productCards cards'
    /\ map fst cards' = [hydraSerum; spacedSerum].
Proof.
  destruct (@categoryChange_then_toggle fixtureText (lit "skincare") 1
              (fixturePage [] (workingStorage None)) ltac:(discriminate)
              [(hydraSerum, false); (spacedSerum, false)] eq_refl)
    as (cards' & Hgrid & Hsame & _).
  exists cards'. split; [exact Hgrid | exact Hsame].
Defined.

Lemma sanitizeText_shape_witness :
  trim (sanitizeText fixture_text 10) = sanitizeText fixture_text 10
  /\ (Z.of_nat (length (sanitizeText fixture_text 10)) <= 10 + 1)%Z.
Proof.
  destruct (sanitizeText_shape fixture_text 10 ltac:(lia))
    as (_ & _ & Htrim & Hlen & _).
  split; [exact Htrim | exact Hlen].
Defined.

Lemma isAllowedQuestion_ignores_case_witness :
  @isAllowedQuestion fixtureHost fixtureCatalog (lit "My SERUM?")
  = @isAllowedQuestion fixtureHost fixtureCatalog (lit "my serum?").
Proof.
  apply (@isAllowedQuestion_ignores_case fixtureHost).
  - repeat constructor.
  - repeat constructor.
  - reflexivity.
Defined.

Lemma isAllowedQuestion_monotone_witness :
  @isAllowedQuestion fixtureHost fixtureCatalog serumQuestion = true.
Proof.
  apply (@isAllowedQuestion_monotone fixtureHost [] fixtureCatalog).
  - intros p [].
  - by vm_compute.
Defined.

Lemma handlers_keep_conversation_shape_witness :
  match
    @chatSubmit fixtureHost
      (fixtureWorld (Some fixtureKey) [1%Z] stockQuestion)
  with
  | Done w' => wellFormed (conversationMessages w')
  | Await w3 _ resume =>
      wellFormed (conversationMessages w3)
      /\ forall r w',
           wellFormed (conversationMessages w') ->
           (length (conversationMessages w3)
            <= length (conversationMessages w'))%nat ->
           wellFormed (conversationMessages (resume r w'))
  end.
Proof.
  apply (@handlers_keep_conversation_shape fixtureHost
           (fixtureWorld (Some fixtureKey) [1%Z] stockQuestion)).
  exists []. split; [reflexivity | constructor].
Defined.

Lemma generateRoutine_request_witness :
  exists w2 resume,
    @generateRoutine fixtureHost (fixtureWorld (Some fixtureKey) [1%Z] [])
    = Await w2
        {| authorization := lit "Bearer sk-test";
           messages :=
             [Some systemMessage;
              Some (@userPayload fixtureHost
                      (getSelectedProductsPayload fixtureCatalog [1%Z]))] |}
        resume.
Proof.
  destruct (@generateRoutine_request fixtureHost
              (fixtureWorld (Some fixtureKey) [1%Z] []) fixtureKey [])
    as (w2 & resume & E & _).
  - by vm_compute.
  - reflexivity.
  - split; [reflexivity | constructor].
  - exists w2, resume. exact E.
Defined.

Lemma chatSubmit_request_witness :
  exists w3 resume,
    @chatSubmit fixtureHost
      (fixtureWorld (Some fixtureKey) [1%Z] serumQuestion)
    = Await w3
        {| authorization := lit "Bearer sk-test";
           messages :=
             [Some systemMessage;
              Some {| role := user; content := serumQuestion |};
              Some thinking] |}
        resume.
Proof.
  destruct (@chatSubmit_request fixtureHost
              (fixtureWorld (Some fixtureKey) [1%Z] serumQuestion)
              fixtureKey [])
    as (w3 & resume & E & _).
  - reflexivity.
  - reflexivity.
  - by vm_compute.
  - split; [reflexivity | constructor].
  - exists w3, resume. exact E.
Defined.

Lemma generateRoutine_outcome_witness :
  exists w2 request resume,
    @generateRoutine fixtureHost (fixtureWorld (Some fixtureKey) [1%Z] [])
    = Await w2 request resume
    /\ generateRoutineBtn_disabled w2 = true
    /\ generateRoutineBtn_disabled (resume (Rejected (lit "Failed to fetch")) w2)
       = false
    /\ chatWindow (resume (Rejected (lit "Failed to fetch")) w2)
       = placeholderMessage
           (lit "Error generating routine: Failed to fetch").
Proof.
  destruct (@generateRoutine_outcome fixtureHost
              (fixtureWorld (Some fixtureKey) [1%Z] []) fixtureKey)
    as (w2 & request & resume & E & Hoff & _ & _ & Hend).
  - by vm_compute.
  - reflexivity.
  - exists w2, request, resume. split; [exact E|]. split; [exact Hoff|].
    destruct (Hend (Rejected (lit "Failed to fetch")) w2) as [Hon [_ Hshow]].
    split; [exact Hon | exact Hshow].
Defined.

Lemma chatSubmit_early_exits_witness :
  @chatSubmit fixtureHost (fixtureWorld None [1%Z] (lit "  "))
  = Done (fixtureWorld None [1%Z] (lit "  "))
  /\ exists w',
       @chatSubmit fixtureHost (fixtureWorld None [1%Z] stockQuestion)
       = Done w'
       /\ chatWindow w' = apiKeyNotSet
       /\ conversationMessages w' = [Some systemMessage]
       /\ hiddenApiMessages w' = []
       /\ userInput w' = stockQuestion.
Proof.
  split.
  - by apply (proj1 (@chatSubmit_early_exits fixtureHost
                       (fixtureWorld None [1%Z] (lit "  ")))).
  - by apply (proj2 (@chatSubmit_early_exits fixtureHost
                       (fixtureWorld None [1%Z] stockQuestion))).
Defined.

(** ** The selection invariant and the frame of the chat handlers *)

Lemma inCatalog_spec catalog z :
  inCatalog catalog z = true <-> exists p, In p catalog /\ Product.id p = z.
Proof.
  unfold inCatalog. destruct (findProduct catalog z) as [p|] eqn:Hf.
  - apply findProduct_Some in Hf. split; [eauto | done].
  - rewrite findProduct_None in Hf. split; [done|].
    intros (p & Hin & Hid). by destruct (Hf p Hin).
Qed.

Section Invariant.
Context `{Host} `{NumberText}.

Lemma init_selected catalog p :
  allProducts (world (init catalog p)) = catalog
  /\ (selectedProductIds (world (init catalog p))
      = selectedProductIds (world p)
      \/ exists arr,
           selectedProductIds (world (init catalog p))
           = fold_left (restoreId catalog) arr (selectedProductIds (world p))).
Proof.
  unfold init. rewrite !updateSelectedProductsList_world.
  unfold loadSelected, loadSelectedProducts. simpl.
  destruct (loadSelectedProducts_try_cases (getItem (localStorage p)) catalog
              (selectedProductIds (world p)))
    as [_ [->|[[m ->]|[arr ->]]]]; simpl; split; eauto.
Qed.

(** X19. The selection invariant. On a page that starts with nothing
    selected, [init] leaves a selection without repetition whose members
    are all identifiers of catalog records, whatever storage holds; a
    click on the card of a catalog product and the remove button of a
    chip keep it so. Under this invariant the payload has exactly one
    entry per selected product. *)
Theorem selection_invariant (catalog : list Product.t) (p : Page)
  (productId : Z) :
  (selectedProductIds (world p) = [] ->
   validSelection (world (init catalog p)))
  /\ (validSelection (world p) ->
      inCatalog (allProducts (world p)) productId = true ->
      validSelection (world (toggleProductSelection productId p)))
  /\ (validSelection (world p) ->
      validSelection (world (removeSelected productId p)))
  /\ (validSelection (world p) ->
      length
        (getSelectedProductsPayload (allProducts (world p))
           (selectedProductIds (world p)))
      = length (selectedProductIds (world p))).
Proof.
  unfold validSelection. split; [|split; [|split]].
  - intros Hempty. destruct (init_selected catalog p) as [-> [->|[arr ->]]];
      rewrite Hempty; [split; [apply NoDup_nil_2 | constructor]|].
    split; [apply restore_all_NoDup, NoDup_nil_2|].
    apply Forall_forall. intros z Hz%list_elem_of_In.
    apply restore_all_In in Hz as [[]|(raw & _ & _ & Hp)].
    by apply inCatalog_spec.
  - intros [Hnd Hall] Hin. rewrite toggleProductSelection_selected.
    assert (allProducts (world (toggleProductSelection productId p))
            = allProducts (world p)) as ->
      by (unfold toggleProductSelection; by rewrite persistAndRefresh_world).
    rewrite Forall_forall in Hall. unfold toggled.
    destruct (setHas productId _); split.
    + by apply setDelete_NoDup.
    + apply Forall_forall. intros z Hz%list_elem_of_In.
      apply setDelete_In in Hz as [Hz _]. by apply Hall, list_elem_of_In.
    + by apply setAdd_NoDup.
    + apply Forall_forall. intros z Hz%list_elem_of_In.
      apply setAdd_In in Hz as [->|Hz]; [done|].
      by apply Hall, list_elem_of_In.
  - intros [Hnd Hall]. unfold removeSelected.
    destruct (setHas productId _); [|done].
    rewrite persistAndRefresh_world. simpl.
    split; [by apply setDelete_NoDup|].
    apply Forall_forall. intros z Hz%list_elem_of_In.
    apply setDelete_In in Hz as [Hz _]. rewrite Forall_forall in Hall.
    by apply Hall, list_elem_of_In.
  - intros [_ Hall]. rewrite payload_length. f_equal.
    induction Hall as [|z ids Hz _ IH]; simpl; [done|]. by rewrite Hz, IH.
Qed.

End Invariant.

Section Frame.
Context `{Host}.

Lemma renderChatWindow_setting w : sameSetting w (renderChatWindow w).
Proof. unfold renderChatWindow. by destruct (visibleMessages _). Qed.

(** X20. The chat handlers never change the selection, the catalog or
    the key: not when they end at once, not when they suspend, not when
    they resume. The submit listener never changes the hidden log
    either. *)
Theorem chat_handlers_frame (w : World) :
  match generateRoutine w with
  | Done w' => sameSetting w w'
  | Await w2 _ resume =>
      sameSetting w w2 /\ forall r w', sameSetting w' (resume r w')
  end
  /\ match chatSubmit w with
     | Done w' =>
         sameSetting w w' /\ hiddenApiMessages w' = hiddenApiMessages w
     | Await w3 _ resume =>
         sameSetting w w3
         /\ hiddenApiMessages w3 = hiddenApiMessages w
         /\ forall r w',
              sameSetting w' (resume r w')
              /\ hiddenApiMessages (resume r w') = hiddenApiMessages w'
     end.
Proof.
  split.
  - destruct (generateRoutine_cases w)
      as [[E ->]|[(E & K & ->)|(E & apiKey & K & ->)]]; [done|done|].
    split; [done|]. intros r w'. unfold generateRoutine_settle.
    destruct (requireContent (readReply r)) as [c|m]; [|done].
    by destruct (renderChatWindow_setting
                   (pushVisible {| role := assistant; content := c |} w'))
      as (? & ? & ?).
  - destruct (chatSubmit_cases w)
      as [[_ ->]|[(_ & _ & ->)|[(_ & _ & _ & ->)|(Hb & [apiKey K] & Hyes)]]];
      [done|done| |].
    + split; [|simpl; by rewrite renderChatWindow_hidden].
      by destruct (renderChatWindow_setting (pushVisible refusal w))
        as (? & ? & ?).
    + destruct (chatSubmit_accepted w apiKey (trim_not_blank _ Hb) K Hyes)
        as (w3 & E' & _ & Hh).
      destruct (chatSubmit_suspended w apiKey Hb K Hyes) as [resume E].
      assert (w3
              = renderChatWindow
                  (pushVisible thinking
                     (setUserInput []
                        (renderChatWindow
                           (pushVisible
                              {| role := user;
                                 content := trim (userInput w) |} w)))))
        as Hw3.
      { rewrite E' in E. by injection E. }
      rewrite E'. split; [|split; [exact Hh|]].
      rewrite Hw3.
      * destruct (renderChatWindow_setting
                    (pushVisible thinking
                       (setUserInput []
                          (renderChatWindow
                             (pushVisible
                                {| role := user;
                                   content := trim (userInput w) |} w)))))
          as (E1 & E2 & E3).
        destruct (renderChatWindow_setting
                    (pushVisible
                       {| role := user; content := trim (userInput w) |} w))
          as (F1 & F2 & F3).
        unfold sameSetting. rewrite E1, E2, E3. simpl.
        by rewrite F1, F2, F3.
      * intros r w'. unfold chatSubmit_settle.
        destruct (requireContent (readReply r));
          (split; [|by rewrite renderChatWindow_hidden]);
          match goal with
          | |- sameSetting _ (renderChatWindow ?x) =>
              by destruct (renderChatWindow_setting x) as (? & ? & ?)
          end.
Qed.

End Frame.

Section Refusal.
Context `{Host}.

(** X21. What the user sees of a refusal. For a question that is not
    blank, with a key set, that the validator rejects, the listener ends
    at once with the input cleared and the window showing the visible
    messages so far followed by the refusal. *)
Theorem chatSubmit_refusal_shown (w : World) (apiKey : jsstring) :
  forallb isWhiteSpace (userInput w) = false ->
  getApiKey w = Some apiKey ->
  isAllowedQuestion (allProducts w) (trim (userInput w)) = false ->
  exists w',
    chatSubmit w = Done w'
    /\ userInput w' = []
    /\ chatWindow w'
       = chatMessages (visibleMessages (conversationMessages w) ++ [refusal]).
Proof.
  intros Hb K Hno.
  destruct (chatSubmit_cases w)
    as [[Hb' _]|[(_ & K' & _)|[(_ & _ & _ & ->)|(_ & _ & Hyes)]]];
    [congruence|congruence| |congruence].
  eexists. split; [reflexivity|]. split; [done|]. simpl.
  unfold renderChatWindow. simpl.
  assert (visibleMessages (conversationMessages w ++ [Some refusal])
          = visibleMessages (conversationMessages w) ++ [refusal]) as ->.
  { induction (conversationMessages w) as [|[m|] l IH]; simpl; [done| |done].
    destruct (isSystem (role m)); by rewrite IH. }
  by destruct (visibleMessages (conversationMessages w)).
Qed.

End Refusal.

Lemma chatSubmit_refusal_shown_witness :
  exists w',
    @chatSubmit fixtureHost
      (fixtureWorld (Some fixtureKey) [1%Z] stockQuestion) = Done w'
    /\ userInput w' = []
    /\ chatWindow w' = chatMessages [refusal].
Proof.
  apply (@chatSubmit_refusal_shown fixtureHost
           (fixtureWorld (Some fixtureKey) [1%Z] stockQuestion) fixtureKey).
  - reflexivity.
  - reflexivity.
  - by vm_compute.
Defined.

Lemma selection_invariant_witness :
  validSelection
    (world
       (@init fixturePageHost [hydraSerum; spacedSerum]
          (startPage None (placeholderMessage []) (selectedChips []) []
             (workingStorage (Some (lit "[1,2]"))))))
  /\ validSelection
       (world
          (@toggleProductSelection fixtureText 2
             (fixturePage [1%Z] (workingStorage None)))).
Proof.
  split.
  - by apply (proj1 (@selection_invariant fixturePageHost fixtureText
                       [hydraSerum; spacedSerum]
                       (startPage None (placeholderMessage [])
                          (selectedChips []) []
                          (workingStorage (Some (lit "[1,2]")))) 0)).
  - apply (proj1 (proj2 (@selection_invariant fixturePageHost fixtureText
                           [] (fixturePage [1%Z] (workingStorage None)) 2))).
    + split; [apply NoDup_singleton | by repeat constructor].
    + reflexivity.
Defined.
